(** * dub: the sale-event schemas and the Bitly import job

    A shallow embedding of
    - [apps/web/lib/zod/schemas/sales.ts] (the track-sale request schema and
      the sale-event response schema), and
    - the Bitly importer ([sanitizeString] and [importLinksFromBitly]),
    together with the properties the specification states about them. *)

From Stdlib Require Import ZArith NArith List String Ascii Bool Lia.
From Stdlib Require Import Floats.SpecFloat.
From stdpp Require Import base option list gmap strings.

Set Default Proof Using "Type".
Local Open Scope list_scope.

(** ** JavaScript strings

    A JavaScript string is a sequence of UTF-16 code units; [length] counts
    code units, as [String.prototype.length] does. *)
Module JS.

Abbreviation jsstring := (list N).

(** Code units of an ASCII literal, for writing strings in examples. *)
Fixpoint str (s : string) : jsstring :=
  match s with
  | EmptyString => []
  | String a s' => N_of_ascii a :: str s'
  end.

Definition c_backslash : N := 92.
Definition c_slash : N := 47.
Definition c_u : N := 117.
Definition c_x : N := 120.

(** The character class [[0-9a-fA-F]]. *)
Definition is_hex (c : N) : bool :=
  (((48 <=? c) && (c <=? 57)) || ((97 <=? c) && (c <=? 102))
   || ((65 <=? c) && (c <=? 70)))%N.

(** A value of type [string | null | undefined]. *)
Inductive nullable_str : Type :=
  | SNull
  | SUndefined
  | SStr (s : jsstring).

(** JavaScript truthiness of such a value: [!v] is [negb (truthy v)]. *)
Definition truthy (v : nullable_str) : bool :=
  match v with
  | SStr (_ :: _) => true
  | _ => false
  end.

(** [v || d] for a string default [d]. *)
Definition or_default (v : nullable_str) (d : jsstring) : jsstring :=
  match v with
  | SStr (c :: s) => c :: s
  | _ => d
  end.

(** White space and line terminators, the code units [String.prototype.trim]
    strips. *)
Definition is_space (c : N) : bool :=
  (((9 <=? c) && (c <=? 13)) || (c =? 32) || (c =? 160) || (c =? 5760)
   || ((8192 <=? c) && (c <=? 8202)) || (c =? 8232) || (c =? 8233)
   || (c =? 8239) || (c =? 8287) || (c =? 12288) || (c =? 65279))%N.

Fixpoint trim_start (s : jsstring) : jsstring :=
  match s with
  | c :: s' => if is_space c then trim_start s' else s
  | [] => []
  end.

Definition trim (s : jsstring) : jsstring :=
  rev (trim_start (rev (trim_start s))).

End JS.
Import JS.

(** ** Regular expressions

    The fragment of ECMAScript pattern semantics the importer uses, in the
    continuation style of the language specification: a matcher takes the
    rest of the input and a continuation, and backtracks by trying its next
    choice when the continuation fails. The result is the input left after
    the whole match. *)
Module Regex.

Definition Continuation := jsstring -> option jsstring.
Definition Matcher := jsstring -> Continuation -> option jsstring.

Definition chr (c : N) : Matcher := fun s k =>
  match s with
  | x :: s' => if (x =? c)%N then k s' else None
  | [] => None
  end.

Definition cls (p : N -> bool) : Matcher := fun s k =>
  match s with
  | x :: s' => if p x then k s' else None
  | [] => None
  end.

Definition seq (m1 m2 : Matcher) : Matcher := fun s k =>
  m1 s (fun s' => m2 s' k).

Definition alt (m1 m2 : Matcher) : Matcher := fun s k =>
  match m1 s k with
  | Some r => Some r
  | None => m2 s k
  end.

(** Greedy [m{0,n}]. *)
Fixpoint upto (n : nat) (m : Matcher) : Matcher := fun s k =>
  match n with
  | O => k s
  | S n' =>
      match m s (fun s' => upto n' m s' k) with
      | Some r => Some r
      | None => k s
      end
  end.

(** Negative lookahead [(?!m)]. *)
Definition not_followed_by (m : Matcher) : Matcher := fun s k =>
  match m s Some with
  | Some _ => None
  | None => k s
  end.

(** The text a pattern matches at the start of [s], if it matches there. *)
Definition match_here (m : Matcher) (s : jsstring) : option jsstring :=
  match m s Some with
  | Some rest => Some (take (length s - length rest) s)
  | None => None
  end.

(** [RegExp.prototype.test] for a pattern with the [g] flag and
    [lastIndex = 0]: is there a match at some position? *)
Fixpoint test (m : Matcher) (s : jsstring) : bool :=
  match match_here m s with
  | Some _ => true
  | None =>
      match s with
      | [] => false
      | _ :: s' => test m s'
      end
  end.

(** [str.replace(re, f)] for a pattern with the [g] flag: matches are taken
    left to right without overlap. [skip] counts the code units of the
    current match that are still to be passed over. After an empty match
    the scan moves on by one code unit. *)
Fixpoint replace_from (m : Matcher) (f : jsstring -> jsstring)
    (skip : nat) (s : jsstring) : jsstring :=
  match s with
  | [] =>
      match skip, match_here m [] with
      | O, Some t => f t
      | _, _ => []
      end
  | c :: s' =>
      match skip with
      | S k => replace_from m f k s'
      | O =>
          match match_here m s with
          | Some [] => f [] ++ c :: replace_from m f 0 s'
          | Some (t0 :: t) => f (t0 :: t) ++ replace_from m f (length t) s'
          | None => c :: replace_from m f 0 s'
          end
      end
  end.

Definition replace_all (m : Matcher) (f : jsstring -> jsstring)
    (s : jsstring) : jsstring :=
  replace_from m f 0 s.

(** [str.replace(c, r)] for a one-character string pattern [c] and a
    replacement [r] without [$]: only the first occurrence is replaced. *)
Fixpoint replace_first (c : N) (r : jsstring) (s : jsstring) : jsstring :=
  match s with
  | [] => []
  | x :: s' => if (x =? c)%N then r ++ s' else x :: replace_first c r s'
  end.

End Regex.

(** ** The string sanitizer *)
Module Sanitize.
Import Regex.

(** [/\\(u[0-9a-fA-F]{0,3}|x[0-9a-fA-F]?)(?![0-9a-fA-F])/g] *)
Definition problematicEscapeRegex : Matcher :=
  seq (chr c_backslash)
    (seq (alt (seq (chr c_u) (upto 3 (cls is_hex)))
              (seq (chr c_x) (upto 1 (cls is_hex))))
         (not_followed_by (cls is_hex))).

(** The [try] block of [sanitizeString]; [None] stands for an exception.
    The [test] and the logging loop only write to the console, and the value
    of the block is that of the [replace]. No operation in it throws on a
    string. *)
Definition sanitizeTry (s : jsstring) : option jsstring :=
  Some (replace_all problematicEscapeRegex
          (fun t => replace_first c_backslash [c_backslash; c_backslash] t)
          s).

(** [str.replace(/\\/g, "\\\\")] of the [catch] block: every backslash is
    doubled. *)
Definition sanitizeCatch (s : jsstring) : jsstring :=
  flat_map (fun c => if (c =? c_backslash)%N
                     then [c_backslash; c_backslash] else [c]) s.

Definition sanitizeString (v : nullable_str) : nullable_str :=
  if negb (truthy v) then v
  else
    match v with
    | SStr s =>
        match sanitizeTry s with
        | Some r => SStr r
        | None => SStr (sanitizeCatch s)
        end
    | _ => v
    end.

(** *** The specification's vocabulary *)

(** Number of hex digits at the start of [s]. *)
Fixpoint hex_run (s : jsstring) : nat :=
  match s with
  | c :: s' => if is_hex c then S (hex_run s') else O
  | [] => O
  end.

(** [s] starts with a truncated escape: a backslash, then [u] and fewer than
    four hex digits, or [x] and fewer than two, the digits not being
    followed by another hex digit. *)
Definition truncated_escape (s : jsstring) : bool :=
  match s with
  | b :: c :: r =>
      (b =? c_backslash)%N
      && (((c =? c_u)%N && (hex_run r <? 4)%nat)
          || ((c =? c_x)%N && (hex_run r <? 2)%nat))
  | _ => false
  end.

(** [s] contains a truncated escape. *)
Fixpoint has_truncated_escape (s : jsstring) : bool :=
  truncated_escape s ||
  match s with
  | [] => false
  | _ :: s' => has_truncated_escape s'
  end.

(** The same question for a reader of escapes: a backslash escapes the
    character after it, so after a doubled backslash the reader goes on
    unescaped. [escaped] says that the character at hand is escaped. *)
Fixpoint has_unescaped_truncated (escaped : bool) (s : jsstring) : bool :=
  match s with
  | [] => false
  | c :: s' =>
      if escaped then has_unescaped_truncated false s'
      else if (c =? c_backslash)%N
           then truncated_escape s || has_unescaped_truncated true s'
           else has_unescaped_truncated false s'
  end.

(** Modelled after the specification's words: the backslash of every
    truncated escape is doubled, everything else is kept. *)
Fixpoint double_truncated (s : jsstring) : jsstring :=
  match s with
  | [] => []
  | c :: s' =>
      if truncated_escape s then c_backslash :: c :: double_truncated s'
      else c :: double_truncated s'
  end.

(** *** The diagnostics

    When [test] finds a match the source logs the string and then, in the
    [while] loop over [exec], the index and the text of every match. *)

(** The [exec] loop of a pattern with the [g] flag from [lastIndex = 0]:
    the pairs of [match.index] and [match[0]], [idx] being the index of the
    head of [s] and [skip] the part of the last match still to pass. The
    pattern of the sanitizer matches no empty string; on an empty match the
    loop of the source would not advance, and the scan ends here. *)
Fixpoint exec_from (m : Regex.Matcher) (skip idx : nat) (s : jsstring)
    : list (nat * jsstring) :=
  match s with
  | [] => []
  | _ :: s' =>
      match skip with
      | S k => exec_from m k (S idx) s'
      | O =>
          match Regex.match_here m s with
          | Some (t0 :: t) =>
              (idx, t0 :: t) :: exec_from m (length t) (S idx) s'
          | Some [] => []
          | None => exec_from m 0 (S idx) s'
          end
      end
  end.

(** What [sanitizeString] logs about the matches of a non-empty string. *)
Definition sanitizeLog (s : jsstring) : list (nat * jsstring) :=
  if Regex.test problematicEscapeRegex s
  then exec_from problematicEscapeRegex 0 0 s
  else [].

(** The truncated escapes of [s] with their indices, the head of [s] having
    the index [idx]. *)
Fixpoint escapes_at (idx : nat) (s : jsstring) : list (nat * jsstring) :=
  match s with
  | [] => []
  | _ :: s' =>
      if truncated_escape s
      then (idx, take 2 s ++ take (hex_run (drop 2 s)) (drop 2 s))
             :: escapes_at (S idx) s'
      else escapes_at (S idx) s'
  end.

(** The string without its backslashes. *)
Definition without_backslashes (s : jsstring) : jsstring :=
  List.filter (fun c => negb (c =? c_backslash)%N) s.

(** [n] applications of the sanitizer. *)
Fixpoint sanitizeTimes (n : nat) (v : nullable_str) : nullable_str :=
  match n with
  | O => v
  | S n' => sanitizeString (sanitizeTimes n' v)
  end.

(** A logged pair names a match of [s]: the text is what [s] has at the
    index, and it is a backslash, [u] or [x], and hex digits. *)
Definition logged_match (s : jsstring) (e : nat * jsstring) : Prop :=
  take (length (snd e)) (drop (fst e) s) = snd e /\
  (2 <= length (snd e) <= 5)%nat /\
  exists c digits,
    snd e = c_backslash :: c :: digits /\
    (c = c_u \/ c = c_x) /\
    forallb is_hex digits = true.

(** The pairs come in the order of their indices, each match ending before
    the next begins, from the index [from] on. *)
Fixpoint apart (from : nat) (l : list (nat * jsstring)) : Prop :=
  match l with
  | [] => True
  | e :: l' => (from <= fst e)%nat /\ apart (fst e + length (snd e)) l'
  end.

End Sanitize.

(** ** The Bitly importer *)
Module Bitly.
Import Sanitize.

(** [s.split(sep)] for a one-character separator. *)
Fixpoint split (sep : N) (s : jsstring) : list jsstring :=
  match s with
  | [] => [[]]
  | c :: s' =>
      if (c =? sep)%N then [] :: split sep s'
      else
        match split sep s' with
        | h :: t => (c :: h) :: t
        | [] => [[c]]
        end
  end.

(** [a.includes(x)] on an array of strings. *)
Definition includes (a : list jsstring) (x : jsstring) : bool :=
  existsb (fun y => bool_decide (y = x)) a.

(** [a.filter(Boolean)] on an array of objects and [null]s. *)
Definition filter_Boolean {A} (a : list (option A)) : list A :=
  flat_map (fun o => match o with Some x => [x] | None => [] end) a.

(** Exceptions the importer's own code can raise. *)
Inductive Error : Type :=
  | RangeError   (* [toISOString] of an invalid date *)
  | TypeError.   (* property access on [undefined] *)

Inductive result (A : Type) : Type :=
  | Ok (a : A)
  | Throw (e : Error).
Arguments Ok {A} a.
Arguments Throw {A} e.

(** A link as the provider returns it. *)
Module Ext.
Record t : Type := mk {
  id : nullable_str;
  long_url : nullable_str;
  title : nullable_str;
  archived : bool;
  created_at : jsstring;
  custom_bitlinks : option (list jsstring);
  tags : list jsstring;
}.
End Ext.

(** A link in the shape [bulkCreateLinks] takes ([linkDetails]). *)
Module Link.
Record t : Type := mk {
  projectId : jsstring;
  userId : jsstring;
  domain : jsstring;
  key : option jsstring;
  url : jsstring;
  shortLink : jsstring;
  title : nullable_str;
  archived : bool;
  createdAt : jsstring;
  tagIds : list (option jsstring);
  folderId : option jsstring;
}.
End Link.

(** The arguments of [importLinksFromBitly]. *)
Module Req.
Record t : Type := mk {
  workspaceId : jsstring;
  userId : jsstring;
  bitlyGroup : jsstring;
  domains : list jsstring;
  folderId : option jsstring;
  tagsToId : option (gmap (list N) (list N));
  bitlyApiKey : jsstring;
  searchAfter : nullable_str;
  count : Z;
}.
End Req.

(** The body of the message published for the next page. *)
Module Body.
Record t : Type := mk {
  workspaceId : jsstring;
  userId : jsstring;
  bitlyGroup : jsstring;
  domains : list jsstring;
  folderId : option jsstring;
  importTags : bool;
  searchAfter : jsstring;
  count : Z;
}.
End Body.

Record Message : Type := {
  msg_url : jsstring;
  msg_body : Body.t;
}.

(** One page of the provider's answer. *)
Record Page : Type := {
  page_links : list Ext.t;
  search_after : jsstring;
}.

Record URL : Type := {
  hostname : jsstring;
  pathname : jsstring;
}.

(** A row of the sample of recent links shown in the email. *)
Record RecentLink : Type := {
  recent_domain : jsstring;
  recent_key : option jsstring;
  recent_createdAt : jsstring;
}.

(** The properties given to the [LinksImported] template, with the
    recipient and the subject of the email. *)
Record Email : Type := {
  subject : jsstring;
  email : jsstring;
  provider : jsstring;
  email_count : Z;
  email_links : list RecentLink;
  email_domains : list jsstring;
  workspaceName : jsstring;
  workspaceSlug : jsstring;
}.

Record ProjectUser : Type := {
  role : jsstring;
  user_email : option jsstring;
}.

Record Project : Type := {
  project_id : jsstring;
  project_name : jsstring;
  project_slug : jsstring;
  project_users : list ProjectUser;
}.

Record Tag : Type := {
  tag_id : jsstring;
  tag_projectId : jsstring;
}.

(** What the JavaScript runtime, [@dub/utils] and the provider contribute. *)
Class Runtime : Type := {
  (** [new Date(s).toISOString()]; [None] stands for the [RangeError] raised
      on an invalid date. *)
  toISOString : jsstring -> option jsstring;
  (** [new URL(s)]; [None] stands for the [TypeError] raised on a string
      that is not a URL. *)
  parseURL : jsstring -> option URL;
  (** [linkConstructorSimple({ domain, key })]. *)
  linkConstructorSimple : jsstring -> option jsstring -> jsstring;
  APP_DOMAIN_WITH_NGROK : jsstring;
  (** The answer of the provider to a [GET] of the URL with the bearer
      token. *)
  fetchBitlinks : jsstring -> jsstring -> Page;
  (** [orderBy: { createdAt: "desc" }]. *)
  orderByCreatedAtDesc : list Link.t -> list Link.t;
}.

(** Every external call of the importer, in the order made. *)
Inductive Call : Type :=
  | CFetch (url bearer : jsstring)
  | CLinkFindMany (shortLinks : list jsstring)
  | CBulkCreateLinks (links : list Link.t)
  | CSleep (ms : Z)
  | CProjectFindUnique (id : jsstring) (domains : list jsstring)
  | CRedisDel (k : jsstring)
  | CTagDeleteMany (projectId : jsstring)
  | CSendEmail (e : Email)
  | CPublishJSON (m : Message).

(** The database, the key-value store, the mailer and the queue. *)
Record World : Type := {
  links : list Link.t;
  projects : list Project;
  tags : list Tag;
  redis : gset (list N);
  outbox : list Email;
  queue : list Message;
  trace : list Call;
}.

(** What an invocation returns: the count, or the answer of the queue to
    the published message. *)
Inductive Ret : Type :=
  | RetCount (n : Z)
  | RetPublished (m : Message).

(** *** State and exceptions *)

Definition M (A : Type) : Type := World -> World * result A.

Definition ret {A} (a : A) : M A := fun w => (w, Ok a).

Definition throw {A} (e : Error) : M A := fun w => (w, Throw e).

Definition bind {A B} (c : M A) (k : A -> M B) : M B := fun w =>
  match c w with
  | (w', Ok a) => k a w'
  | (w', Throw e) => (w', Throw e)
  end.

Definition lift {A} (r : result A) : M A := fun w => (w, r).

Notation "x <- c ;; k" := (bind c (fun x => k))
  (at level 100, c at next level, right associativity).
Notation "c ;;; k" := (bind c (fun _ => k))
  (at level 100, right associativity).

Definition call (c : Call) (w : World) : World :=
  {| links := links w; projects := projects w; tags := tags w;
     redis := redis w; outbox := outbox w; queue := queue w;
     trace := trace w ++ [c] |}.

(** The columns [findUnique] selects from the workspace. *)
Record Workspace : Type := {
  ws_name : jsstring;
  ws_slug : jsstring;
  ws_users : list (option jsstring);
  ws_links : list RecentLink;
}.

(** What the callback of [links.flatMap] does with one link. *)
Inductive Outcome : Type :=
  | SkipMissing                    (* no [id] or no [long_url] *)
  | SkipDomain                     (* the domain is not one of the workspace's *)
  | SkipEmptyUrl                   (* empty URL after sanitization *)
  | Emit (ls : list Link.t).

Definition emitted (o : Outcome) : list Link.t :=
  match o with
  | Emit ls => ls
  | _ => []
  end.

(** [a.flatMap(f)] for a callback that may throw. *)
Fixpoint flatMapM {A B} (f : A -> result (list B)) (a : list A)
    : result (list B) :=
  match a with
  | [] => Ok []
  | x :: a' =>
      match f x with
      | Throw e => Throw e
      | Ok ys =>
          match flatMapM f a' with
          | Throw e => Throw e
          | Ok zs => Ok (ys ++ zs)
          end
      end
  end.

Section Importer.
Context `{Runtime}.

(** The callback of [custom_bitlinks?.filter]. *)
Definition keepCustomBitlink (domains : list jsstring)
    (customBitlink : jsstring) : bool :=
  match parseURL customBitlink with
  | Some u => includes domains (hostname u)
  | None => false
  end.

(** The callback of the [map] that follows. *)
Definition customLink (linkDetails : Link.t) (customBitlink : jsstring)
    : option Link.t :=
  match parseURL customBitlink with
  | Some u =>
      let customDomain := hostname u in
      let customKey := drop 1 (pathname u) in
      Some (Link.mk (Link.projectId linkDetails) (Link.userId linkDetails)
              customDomain (Some customKey) (Link.url linkDetails)
              (linkConstructorSimple customDomain (Some customKey))
              (Link.title linkDetails) (Link.archived linkDetails)
              (Link.createdAt linkDetails) (Link.tagIds linkDetails)
              (Link.folderId linkDetails))
  | None => None
  end.

(** The callback of [links.flatMap]. The tag mapping is a finite map, so
    [tagsToId[tag]] is [undefined] for every tag that is not one of its
    keys; a tag named like a property that every object inherits
    ([constructor], [toString]) is outside this model. *)
Definition convert (r : Req.t) (l : Ext.t) : result Outcome :=
  if negb (truthy (Ext.id l)) || negb (truthy (Ext.long_url l))
  then Ok SkipMissing
  else
    let parts := split c_slash (or_default (Ext.id l) []) in
    let domain := hd [] parts in
    let key := parts !! 1%nat in
    if negb (includes (Req.domains r) domain) then Ok SkipDomain
    else
      let sanitizedUrl := or_default (sanitizeString (Ext.long_url l)) [] in
      if bool_decide (sanitizedUrl = []) then Ok SkipEmptyUrl
      else
        match toISOString (Ext.created_at l) with
        | None => Throw RangeError
        | Some createdAt =>
            let tagIds :=
              match Req.tagsToId r with
              | Some m => map (fun tag : jsstring => m !! tag) (Ext.tags l)
              | None => []
              end in
            let linkDetails :=
              Link.mk (Req.workspaceId r) (Req.userId r) domain key
                sanitizedUrl (linkConstructorSimple domain key)
                (sanitizeString (Ext.title l)) (Ext.archived l) createdAt
                tagIds (Req.folderId r) in
            Ok (Emit
                  (linkDetails ::
                   match Ext.custom_bitlinks l with
                   | Some cbs =>
                       filter_Boolean
                         (map (customLink linkDetails)
                            (List.filter (keepCustomBitlink (Req.domains r))
                               cbs))
                   | None => []
                   end))
        end.

Definition convertLink (r : Req.t) (l : Ext.t) : result (list Link.t) :=
  match convert r l with
  | Ok o => Ok (emitted o)
  | Throw e => Throw e
  end.

(** *** The collaborators

    Each external call is recorded in the trace and answers: a service that
    rejects is outside this model. The four calls of [Promise.all] are
    recorded in the order of the array, the order in which they are made. *)

Definition fetch (url bearer : jsstring) : M Page := fun w =>
  (call (CFetch url bearer) w, Ok (fetchBitlinks url bearer)).

(** [prisma.link.findMany] with [where: { shortLink: { in } }] and
    [select: { shortLink }]. *)
Definition prisma_link_findMany (shortLinks : list jsstring)
    : M (list jsstring) := fun w =>
  (call (CLinkFindMany shortLinks) w,
   Ok (map Link.shortLink
         (List.filter (fun l => includes shortLinks (Link.shortLink l))
            (links w)))).

(** Modelled from the spec: [bulkCreateLinks] of [@/lib/api/links], which is
    not among these files, persists the links it is given. *)
Definition bulkCreateLinks (ls : list Link.t) : M unit := fun w =>
  ({| links := links w ++ ls; projects := projects w; tags := tags w;
      redis := redis w; outbox := outbox w; queue := queue w;
      trace := trace w ++ [CBulkCreateLinks ls] |}, Ok tt).

Definition sleep (ms : Z) : M unit := fun w => (call (CSleep ms) w, Ok tt).

Definition recent (l : Link.t) : RecentLink :=
  {| recent_domain := Link.domain l; recent_key := Link.key l;
     recent_createdAt := Link.createdAt l |}.

(** The selection [prisma.project.findUnique] is called with: name, slug,
    the emails of the owners, and the five newest links on the imported
    domains. *)
Definition selectWorkspace (w : World) (id : jsstring)
    (domains : list jsstring) : option Workspace :=
  match List.find (fun p => bool_decide (project_id p = id)) (projects w) with
  | Some p =>
      Some {| ws_name := project_name p;
              ws_slug := project_slug p;
              ws_users :=
                map user_email
                  (List.filter (fun u => bool_decide (role u = str "owner"))
                     (project_users p));
              ws_links :=
                map recent
                  (take 5
                     (orderByCreatedAtDesc
                        (List.filter
                           (fun l =>
                              bool_decide (Link.projectId l = id)
                              && includes domains (Link.domain l))
                           (links w)))) |}
  | None => None
  end.

Definition prisma_project_findUnique (id : jsstring)
    (domains : list jsstring) : M (option Workspace) := fun w =>
  (call (CProjectFindUnique id domains) w, Ok (selectWorkspace w id domains)).

Definition redis_del (k : jsstring) : M unit := fun w =>
  ({| links := links w; projects := projects w; tags := tags w;
      redis := redis w ∖ {[k]}; outbox := outbox w; queue := queue w;
      trace := trace w ++ [CRedisDel k] |}, Ok tt).

(** A tag has a link when some link lists its id. *)
Definition tag_has_link (ls : list Link.t) (t : Tag) : bool :=
  existsb (fun l =>
             existsb (fun i => bool_decide (i = Some (tag_id t)))
               (Link.tagIds l)) ls.

(** [prisma.tag.deleteMany] with [where: { projectId, links: { none: {} } }]. *)
Definition prisma_tag_deleteMany (projectId : jsstring) : M unit := fun w =>
  ({| links := links w; projects := projects w;
      tags :=
        List.filter
          (fun t => negb (bool_decide (tag_projectId t = projectId)
                          && negb (tag_has_link (links w) t)))
          (tags w);
      redis := redis w; outbox := outbox w; queue := queue w;
      trace := trace w ++ [CTagDeleteMany projectId] |}, Ok tt).

Definition sendEmail (e : Email) : M unit := fun w =>
  ({| links := links w; projects := projects w; tags := tags w;
      redis := redis w; outbox := outbox w ++ [e]; queue := queue w;
      trace := trace w ++ [CSendEmail e] |}, Ok tt).

Definition qstash_publishJSON (m : Message) : M Message := fun w =>
  ({| links := links w; projects := projects w; tags := tags w;
      redis := redis w; outbox := outbox w; queue := queue w ++ [m];
      trace := trace w ++ [CPublishJSON m] |}, Ok m).

(** *** The importer *)

Definition bitlinksUrl (r : Req.t) : jsstring :=
  str "https://api-ssl.bitly.com/v4/groups/" ++ Req.bitlyGroup r
  ++ str "/bitlinks?size=100"
  ++ match Req.searchAfter r with
     | SStr (c :: s) => str "&search_after=" ++ c :: s
     | _ => []
     end.

(** [importedLinks.filter(link => !alreadyCreatedLinks.some(...))] *)
Definition linksToCreate (importedLinks : list Link.t)
    (alreadyCreatedLinks : list jsstring) : list Link.t :=
  List.filter
    (fun link =>
       negb (existsb (fun l => bool_decide (l = Link.shortLink link))
               alreadyCreatedLinks))
    importedLinks.

(** [workspace?.users[0].user.email ?? ""] *)
Definition ownerEmailOf (workspace : option Workspace) : result jsstring :=
  match workspace with
  | None => Ok []
  | Some ws =>
      match ws_users ws with
      | [] => Throw TypeError
      | u :: _ => Ok (default [] u)
      end
  end.

Definition continuation (r : Req.t) (nextSearchAfter : jsstring) (count : Z)
    : Message :=
  {| msg_url := APP_DOMAIN_WITH_NGROK ++ str "/api/cron/import/bitly";
     msg_body :=
       Body.mk (Req.workspaceId r) (Req.userId r) (Req.bitlyGroup r)
         (Req.domains r) (Req.folderId r)
         match Req.tagsToId r with Some _ => true | None => false end
         nextSearchAfter count |}.

Definition importLinksFromBitly (r : Req.t) : M Ret :=
  data <- fetch (bitlinksUrl r) (str "Bearer " ++ Req.bitlyApiKey r) ;;
  let nextSearchAfter := search_after data in
  importedLinks <- lift (flatMapM (convertLink r) (page_links data)) ;;
  alreadyCreatedLinks <-
    prisma_link_findMany (map Link.shortLink importedLinks) ;;
  bulkCreateLinks (linksToCreate importedLinks alreadyCreatedLinks) ;;;
  let count := (Req.count r + Z.of_nat (length importedLinks))%Z in
  sleep 500 ;;;
  if bool_decide (nextSearchAfter = [])
  then
    workspace <-
      prisma_project_findUnique (Req.workspaceId r) (Req.domains r) ;;
    ownerEmail <- lift (ownerEmailOf workspace) ;;
    let links :=
      match workspace with Some ws => ws_links ws | None => [] end in
    redis_del (str "import:bitly:" ++ Req.workspaceId r) ;;;
    redis_del (str "import:bitly:" ++ Req.workspaceId r ++ str ":tags") ;;;
    prisma_tag_deleteMany (Req.workspaceId r) ;;;
    sendEmail
      {| subject := str "Your Bitly links have been imported!";
         email := ownerEmail;
         provider := str "Bitly";
         email_count := count;
         email_links := links;
         email_domains := Req.domains r;
         workspaceName :=
           match workspace with Some ws => ws_name ws | None => [] end;
         workspaceSlug :=
           match workspace with Some ws => ws_slug ws | None => [] end |} ;;;
    ret (RetCount count)
  else
    m <- qstash_publishJSON (continuation r nextSearchAfter count) ;;
    ret (RetPublished m).

End Importer.

(** *** The vocabulary of the properties *)

Section Vocabulary.
Context `{Runtime}.

(** The short link is the short link of a record in persistence. *)
Definition present (w : World) (shortLink : jsstring) : bool :=
  includes (map Link.shortLink (links w)) shortLink.

(** The world when the page has been persisted and the pause is over. *)
Definition persisted (r : Req.t) (batch : list Link.t) (w : World) : World :=
  let new := List.filter (fun l => negb (present w (Link.shortLink l))) batch in
  {| links := links w ++ new; projects := projects w; tags := tags w;
     redis := redis w; outbox := outbox w; queue := queue w;
     trace := trace w ++
       [CFetch (bitlinksUrl r) (str "Bearer " ++ Req.bitlyApiKey r);
        CLinkFindMany (map Link.shortLink batch);
        CBulkCreateLinks new;
        CSleep 500] |}.

(** The page the invocation fetches, and the links it makes of it. *)
Definition fetched (r : Req.t) : Page :=
  fetchBitlinks (bitlinksUrl r) (str "Bearer " ++ Req.bitlyApiKey r).

Definition transformed (r : Req.t) : result (list Link.t) :=
  flatMapM (convertLink r) (page_links (fetched r)).

(** A custom bitlink that parses as a URL on one of the domains. *)
Definition valid_alias (domains : list jsstring) (customBitlink : jsstring)
    : Prop :=
  exists u, parseURL customBitlink = Some u /\ In (hostname u) domains.

(** [e] is the entry made of the custom bitlink [cb] of the link whose own
    entry is [primary]. *)
Definition alias_entry (primary : Link.t) (cb : jsstring) (e : Link.t)
    : Prop :=
  exists u,
    parseURL cb = Some u /\
    Link.domain e = hostname u /\
    Link.key e = Some (drop 1 (pathname u)) /\
    Link.shortLink e
      = linkConstructorSimple (hostname u) (Some (drop 1 (pathname u))) /\
    Link.url e = Link.url primary /\
    Link.projectId e = Link.projectId primary /\
    Link.userId e = Link.userId primary /\
    Link.title e = Link.title primary /\
    Link.archived e = Link.archived primary /\
    Link.createdAt e = Link.createdAt primary /\
    Link.tagIds e = Link.tagIds primary /\
    Link.folderId e = Link.folderId primary.

Definition flagKey (r : Req.t) : jsstring :=
  str "import:bitly:" ++ Req.workspaceId r.

Definition tagsFlagKey (r : Req.t) : jsstring :=
  str "import:bitly:" ++ Req.workspaceId r ++ str ":tags".

Definition newCount (r : Req.t) (batch : list Link.t) : Z :=
  (Req.count r + Z.of_nat (length batch))%Z.

(** The email of the completed import, sent from the world [w1]. *)
Definition completionEmail (r : Req.t) (batch : list Link.t) (w1 : World)
    (owner : jsstring) : Email :=
  let workspace := selectWorkspace w1 (Req.workspaceId r) (Req.domains r) in
  {| subject := str "Your Bitly links have been imported!";
     email := owner;
     provider := str "Bitly";
     email_count := newCount r batch;
     email_links :=
       match workspace with Some ws => ws_links ws | None => [] end;
     email_domains := Req.domains r;
     workspaceName :=
       match workspace with Some ws => ws_name ws | None => [] end;
     workspaceSlug :=
       match workspace with Some ws => ws_slug ws | None => [] end |}.

Definition finalized (r : Req.t) (batch : list Link.t) (w : World)
    (owner : jsstring) : World :=
  let w1 := persisted r batch w in
  let e := completionEmail r batch w1 owner in
  {| links := links w1; projects := projects w1;
     tags :=
       List.filter
         (fun t => negb (bool_decide (tag_projectId t = Req.workspaceId r)
                         && negb (tag_has_link (links w1) t)))
         (tags w1);
     redis := redis w1 ∖ {[flagKey r]} ∖ {[tagsFlagKey r]};
     outbox := outbox w1 ++ [e];
     queue := queue w1;
     trace := trace w1 ++
       [CProjectFindUnique (Req.workspaceId r) (Req.domains r);
        CRedisDel (flagKey r);
        CRedisDel (tagsFlagKey r);
        CTagDeleteMany (Req.workspaceId r);
        CSendEmail e] |}.

Definition continued (r : Req.t) (batch : list Link.t) (w : World) : World :=
  let w1 := persisted r batch w in
  let m := continuation r (search_after (fetched r)) (newCount r batch) in
  {| links := links w1; projects := projects w1; tags := tags w1;
     redis := redis w1; outbox := outbox w1;
     queue := queue w1 ++ [m];
     trace := trace w1 ++ [CPublishJSON m] |}.

(** The calls of one kind in a trace, in order. *)
Definition bulkInserts (t : list Call) : list (list Link.t) :=
  flat_map (fun c => match c with CBulkCreateLinks ls => [ls] | _ => [] end) t.

Definition publishes (t : list Call) : list Message :=
  flat_map (fun c => match c with CPublishJSON m => [m] | _ => [] end) t.

Definition redisDels (t : list Call) : list jsstring :=
  flat_map (fun c => match c with CRedisDel k => [k] | _ => [] end) t.

Definition tagDeletes (t : list Call) : list jsstring :=
  flat_map (fun c => match c with CTagDeleteMany p => [p] | _ => [] end) t.

Definition emailsSent (t : list Call) : list Email :=
  flat_map (fun c => match c with CSendEmail e => [e] | _ => [] end) t.

(** The link has the short link [s]. *)
Definition has_shortLink (s : jsstring) (l : Link.t) : bool :=
  bool_decide (Link.shortLink l = s).

End Vocabulary.

(** *** A small runtime for examples

    URLs are [https://host/path]; the provider answers every request with
    the page [p]. *)
Definition sample_parseURL (s : jsstring) : option URL :=
  if bool_decide (take 8 s = str "https://")
  then
    let host := hd [] (split c_slash (drop 8 s)) in
    match host with
    | [] => None
    | _ :: _ =>
        Some {| hostname := host;
                pathname :=
                  match drop (length host) (drop 8 s) with
                  | [] => str "/"
                  | path => path
                  end |}
    end
  else None.

Definition sample_toISOString (s : jsstring) : option jsstring :=
  match s with
  | [] => None
  | _ :: _ => Some s
  end.

Definition sample_linkConstructorSimple (domain : jsstring)
    (key : option jsstring) : jsstring :=
  str "https://" ++ domain ++ str "/" ++ default (str "undefined") key.

Definition sampleRuntime (p : Page) : Runtime :=
  {| toISOString := sample_toISOString;
     parseURL := sample_parseURL;
     linkConstructorSimple := sample_linkConstructorSimple;
     APP_DOMAIN_WITH_NGROK := str "https://app.dub.co";
     fetchBitlinks := fun _ _ => p;
     orderByCreatedAtDesc := fun ls => ls |}.

(** The link of the specification's end-to-end scenario, with two custom
    bitlinks, one on a claimed domain. *)
Definition sample_link : Ext.t :=
  Ext.mk (SStr (str "short.io/abc")) (SStr (str "https://ex.com"))
    (SStr (str "Example")) false (str "2024-01-01T00:00:00.000Z")
    (Some [str "https://short.io/promo"; str "https://other.io/x";
           str "not a url"])
    [str "news"].

Definition sample_request : Req.t :=
  Req.mk (str "ws_1") (str "user_1") (str "group_1") [str "short.io"]
    None (Some {[ str "news" := str "tag_1" ]}) (str "secret") SNull 0.

Definition sample_page (cursor : jsstring) : Page :=
  {| page_links := [sample_link]; search_after := cursor |}.

Definition sample_world : World :=
  {| links := [];
     projects :=
       [{| project_id := str "ws_1"; project_name := str "Acme";
           project_slug := str "acme";
           project_users :=
             [{| role := str "member"; user_email := Some (str "m@acme.co") |};
              {| role := str "owner"; user_email := Some (str "o@acme.co") |}]
         |}];
     tags :=
       [{| tag_id := str "tag_1"; tag_projectId := str "ws_1" |};
        {| tag_id := str "tag_2"; tag_projectId := str "ws_1" |};
        {| tag_id := str "tag_3"; tag_projectId := str "ws_2" |}];
     redis :=
       {[ str "import:bitly:ws_1"; str "import:bitly:ws_1:tags";
          str "import:bitly:ws_2" ]};
     outbox := [];
     queue := [];
     trace := [] |}.

(** The sample request with another API key and another tag mapping. *)
Definition sample_request' : Req.t :=
  Req.mk (str "ws_1") (str "user_1") (str "group_1") [str "short.io"]
    None (Some {[ str "news" := str "tag_9" ]}) (str "another") SNull 0.

(** A page with the sample link twice. *)
Definition sample_page_twice : Page :=
  {| page_links := [sample_link; sample_link]; search_after := [] |}.

(** The links made of the sample page. *)
Definition sample_batch : list Link.t :=
  Eval cbv in
    match @transformed (sampleRuntime (sample_page [])) sample_request with
    | Ok b => b
    | Throw _ => []
    end.

Definition sample_batch_twice : list Link.t := sample_batch ++ sample_batch.

(** A world in which the first link of the sample page already exists. *)
Definition sample_world_imported : World :=
  {| links := take 1 sample_batch;
     projects := projects sample_world; tags := tags sample_world;
     redis := redis sample_world; outbox := []; queue := []; trace := [] |}.

(** *** More vocabulary *)

(** The three guards of the callback that come before the date is
    converted: an id, a URL, and a domain of the workspace. *)
Definition passes_guards (r : Req.t) (l : Ext.t) : bool :=
  truthy (Ext.id l) && truthy (Ext.long_url l)
  && includes (Req.domains r)
       (hd [] (split c_slash (or_default (Ext.id l) []))).

(** A link of the page that passes the guards and whose [created_at] is
    not a date. *)
Definition invalid_date `{Runtime} (r : Req.t) (l : Ext.t) : Prop :=
  passes_guards r l = true /\ toISOString (Ext.created_at l) = None.

(** The link belongs to the request: its workspace, user and folder are
    those of the request, its domain is one of the request's, and its URL
    is not empty. *)
Definition belongs_to (r : Req.t) (l : Link.t) : Prop :=
  Link.projectId l = Req.workspaceId r /\
  Link.userId l = Req.userId r /\
  Link.folderId l = Req.folderId r /\
  In (Link.domain l) (Req.domains r) /\
  Link.url l <> [].

(** The sample link with a [created_at] that is not a date. *)
Definition sample_link_undated : Ext.t :=
  Ext.mk (SStr (str "short.io/xyz")) (SStr (str "https://ex.com/2"))
    SNull false [] None [].

(** A link of another domain, with nothing else that is well formed. *)
Definition sample_link_foreign : Ext.t :=
  Ext.mk (SStr (str "bit.ly/abc")) (SStr (str "https://ex.com/3"))
    SUndefined true [] None [].

(** The first owner of the workspace of the request, as [findUnique]
    selects it; [None] when the workspace is not found or has no owner. *)
Definition firstOwner (w : World) (r : Req.t) : option ProjectUser :=
  match List.find (fun p => bool_decide (project_id p = Req.workspaceId r))
          (projects w) with
  | Some p =>
      head (List.filter (fun u => bool_decide (role u = str "owner"))
              (project_users p))
  | None => None
  end.

(** The workspace of the request. *)
Definition workspaceOf (w : World) (r : Req.t) : option Project :=
  List.find (fun p => bool_decide (project_id p = Req.workspaceId r))
    (projects w).

(** A world whose workspace has no owner. *)
Definition sample_world_ownerless : World :=
  {| links := [];
     projects :=
       [{| project_id := str "ws_1"; project_name := str "Acme";
           project_slug := str "acme";
           project_users :=
             [{| role := str "member"; user_email := Some (str "m@acme.co") |}]
         |}];
     tags := tags sample_world; redis := redis sample_world;
     outbox := []; queue := []; trace := [] |}.

(** A world without the workspace. *)
Definition sample_world_empty : World :=
  {| links := []; projects := []; tags := tags sample_world;
     redis := redis sample_world; outbox := []; queue := []; trace := [] |}.

(** The string has no slash. *)
Definition no_slash (s : jsstring) : Prop :=
  Forall (fun c => c <> c_slash) s.

(** [a.join(sep)] for a one-character separator. *)
Fixpoint join (sep : N) (a : list jsstring) : jsstring :=
  match a with
  | [] => []
  | [x] => x
  | x :: a' => x ++ sep :: join sep a'
  end.

Definition sample_page_undated : Page :=
  {| page_links := [sample_link; sample_link_undated]; search_after := [] |}.

Definition sample_page_foreign : Page :=
  {| page_links := [sample_link_foreign]; search_after := [] |}.

(** A link with two custom bitlinks, one on a claimed domain, and a
    [created_at] that is not a date. *)
Definition sample_link_undated_alias : Ext.t :=
  Ext.mk (SStr (str "short.io/xyz")) (SStr (str "https://ex.com/2"))
    SNull false [] (Some [str "https://short.io/sale"; str "not a url"]) [].

Definition sample_page_undated_alias : Page :=
  {| page_links := [sample_link; sample_link_undated_alias];
     search_after := [] |}.

(** The link [l] of the provider with another [id]. *)
Definition with_id (l : Ext.t) (id : nullable_str) : Ext.t :=
  Ext.mk id (Ext.long_url l) (Ext.title l) (Ext.archived l)
    (Ext.created_at l) (Ext.custom_bitlinks l) (Ext.tags l).

(** The sample link with more text after a second slash of its id. *)
Definition sample_link_long_id : Ext.t :=
  with_id sample_link (SStr (str "short.io/abc/def/ghi")).

End Bitly.

(** ** The zod schemas of [sales.ts]

    A schema is modelled by its [safeParse]: the parsed value, or [None] when
    zod reports issues. Numbers are IEEE 754 doubles. *)
Module Zod.

Local Set Warnings "-register-all".

Inductive value : Type :=
  | VUndefined
  | VNull
  | VBool (b : bool)
  | VNum (n : spec_float)
  | VStr (s : jsstring)
  | VArr (a : list value)
  | VObj (fields : list (jsstring * value)).

Definition Schema : Type := value -> option value.
Definition Shape : Type := list (jsstring * Schema).

(** The double of an integer. *)
Definition num (z : Z) : spec_float := binary_normalize 53 1024 z 0 false.

(** [o[k]] and [k in o] for the properties of an object. *)
Fixpoint lookup_key {A} (k : jsstring) (fields : list (jsstring * A))
    : option A :=
  match fields with
  | [] => None
  | (k', v) :: fields' =>
      if bool_decide (k' = k) then Some v else lookup_key k fields'
  end.

Definition get (fields : list (jsstring * value)) (k : jsstring) : value :=
  default VUndefined (lookup_key k fields).

Definition has_key {A} (k : jsstring) (fields : list (jsstring * A)) : bool :=
  match lookup_key k fields with Some _ => true | None => false end.

(** [{ ...o, [k]: v }] with [k] moved to the front. *)
Definition set_field (k : jsstring) (v : value)
    (fields : list (jsstring * value)) : list (jsstring * value) :=
  (k, v) :: List.filter (fun kv => negb (bool_decide (fst kv = k))) fields.

(** *** [z.string()] and its checks, run in the order written *)

Inductive StringCheck : Type :=
  | Trim
  | Min (n : nat)
  | Max (n : nat).

Fixpoint string_checks (cs : list StringCheck) (s : jsstring)
    : option jsstring :=
  match cs with
  | [] => Some s
  | Trim :: cs' => string_checks cs' (trim s)
  | Min n :: cs' =>
      if (length s <? n)%nat then None else string_checks cs' s
  | Max n :: cs' =>
      if (n <? length s)%nat then None else string_checks cs' s
  end.

Definition z_string (cs : list StringCheck) : Schema := fun v =>
  match v with
  | VStr s => option_map VStr (string_checks cs s)
  | _ => None
  end.

(** *** [z.number()], [.int()] and [.positive()] *)

(** [Number.isInteger]. *)
Definition isInteger (n : spec_float) : bool :=
  match n with
  | S754_zero _ => true
  | S754_finite _ m e =>
      if (0 <=? e)%Z then true else (Z.pos m mod 2 ^ (- e) =? 0)%Z
  | _ => false
  end.

Inductive NumberCheck : Type :=
  | Int
  | Positive.

Definition number_check (c : NumberCheck) (n : spec_float) : bool :=
  match c with
  | Int => isInteger n
  | Positive => negb (SFleb n (S754_zero false))
  end.

(** [NaN] has the parsed type [nan], not [number]. *)
Definition z_number (cs : list NumberCheck) : Schema := fun v =>
  match v with
  | VNum S754_nan => None
  | VNum n => if forallb (fun c => number_check c n) cs then Some v else None
  | _ => None
  end.

(** *** The other schemas *)

Definition z_enum (values : list jsstring) : Schema := fun v =>
  match v with
  | VStr s => if existsb (fun x => bool_decide (x = s)) values
              then Some v else None
  | _ => None
  end.

Definition z_literal (s : jsstring) : Schema := fun v =>
  match v with
  | VStr s' => if bool_decide (s' = s) then Some v else None
  | _ => None
  end.

Definition z_unknown : Schema := fun v => Some v.

Definition z_optional (s : Schema) : Schema := fun v =>
  match v with
  | VUndefined => Some VUndefined
  | _ => s v
  end.

Definition z_nullable (s : Schema) : Schema := fun v =>
  match v with
  | VNull => Some VNull
  | _ => s v
  end.

(** [.nullish()] is [.nullable().optional()]. *)
Definition z_nullish (s : Schema) : Schema := z_optional (z_nullable s).

(** [.default(d)]: [undefined] is replaced by [d] before the inner schema
    runs. *)
Definition z_default (d : value) (s : Schema) : Schema := fun v =>
  match v with
  | VUndefined => s d
  | _ => s v
  end.

(** [z.record(z.unknown())]: any object that is not an array; the result
    leaves out a [__proto__] key. *)
Definition z_record_unknown : Schema := fun v =>
  match v with
  | VObj fields =>
      Some (VObj (List.filter
                    (fun kv => negb (bool_decide (fst kv = str "__proto__")))
                    fields))
  | _ => None
  end.

(** [z.object(shape)]: every key of the shape is parsed, a missing key as
    [undefined]; unknown keys are stripped; a key is written to the result
    when it was in the input or its parsed value is not [undefined]. *)
Fixpoint parse_shape (sh : Shape) (fields : list (jsstring * value))
    : option (list (jsstring * value)) :=
  match sh with
  | [] => Some []
  | (k, s) :: sh' =>
      match s (get fields k), parse_shape sh' fields with
      | Some v, Some out =>
          Some (match v with
                | VUndefined => if has_key k fields then (k, v) :: out else out
                | _ => (k, v) :: out
                end)
      | _, _ => None
      end
  end.

Definition z_object (sh : Shape) : Schema := fun v =>
  match v with
  | VObj fields => option_map VObj (parse_shape sh fields)
  | _ => None
  end.

(** [.pick(mask)]: the keys of the mask that the shape has, in the order of
    the mask. *)
Definition pick (sh : Shape) (mask : list jsstring) : Shape :=
  flat_map (fun k => match lookup_key k sh with
                     | Some s => [(k, s)]
                     | None => []
                     end) mask.

(** [a.merge(b)] has the shape [{ ...a.shape, ...b.shape }]. *)
Definition merge (a b : Shape) : Shape :=
  map (fun ks => (fst ks, default (snd ks) (lookup_key (fst ks) b))) a
  ++ List.filter (fun ks => negb (has_key (fst ks) a)) b.

(** *** [trackSaleRequestSchema] *)

Definition trackSaleRequestShape : Shape :=
  [ (str "customerId", z_string [Trim; Min 1; Max 100]);
    (str "amount", z_number [Int; Positive]);
    (str "paymentProcessor",
      z_enum [str "stripe"; str "shopify"; str "paddle"]);
    (str "eventName",
      z_default (VStr (str "Purchase")) (z_optional (z_string [Max 50])));
    (str "invoiceId", z_default VNull (z_nullish (z_string [])));
    (str "currency", z_default (VStr (str "usd")) (z_string []));
    (str "metadata", z_default VNull (z_nullish z_record_unknown)) ].

Definition trackSaleRequestSchema : Schema := z_object trackSaleRequestShape.

(** *** [saleEventResponseSchema] *)

Section Response.

(** The schemas imported from [./links], [./clicks], [./customers] and
    [./deprecated], and [String(v)] of [z.coerce.string()]. *)
Variables linkEventSchema clickEventSchema customerSchema : Schema.
Variable commonDeprecatedEventFields : Shape.
Variable coerceString : value -> jsstring.

Definition z_coerce_string : Schema := fun v =>
  z_string [] (VStr (coerceString v)).

(** The object given to [z.object]. *)
Definition saleEventFields : Shape :=
    [ (str "event", z_literal (str "sale"));
      (str "timestamp", z_coerce_string);
      (str "eventId", z_string []);
      (str "eventName", z_string []);
      (str "link", linkEventSchema);
      (str "click", clickEventSchema);
      (str "customer", customerSchema);
      (str "sale",
        z_object (pick trackSaleRequestShape
                    [str "amount"; str "invoiceId"; str "paymentProcessor"]));
      (str "saleAmount", z_number []);
      (str "invoice_id", z_string []);
      (str "payment_processor", z_string []) ].

Definition saleEventResponseShape : Shape :=
  merge saleEventFields commonDeprecatedEventFields.

Definition saleEventResponseSchema : Schema :=
  z_object saleEventResponseShape.

End Response.

(** *** The vocabulary of the properties *)

(** The double [n] is the integer [k]. *)
Definition is_integer (n : spec_float) (k : Z) : Prop :=
  match n with
  | S754_zero _ => k = 0%Z
  | S754_finite s m e =>
      if (0 <=? e)%Z then k = (cond_Zopp s (Z.pos m) * 2 ^ e)%Z
      else cond_Zopp s (Z.pos m) = (k * 2 ^ (- e))%Z
  | _ => False
  end.

Definition positive_integer (v : value) : Prop :=
  exists n k, v = VNum n /\ is_integer n k /\ (0 < k)%Z.

(** A string that, trimmed, has between [lo] and [hi] code units. *)
Definition trimmed_between (lo hi : nat) (v : value) : Prop :=
  exists s, v = VStr s /\ (lo <= length (trim s) <= hi)%nat.

Definition one_of (values : list jsstring) (v : value) : Prop :=
  exists s, v = VStr s /\ In s values.

Definition is_string (v : value) : Prop := exists s, v = VStr s.

Definition string_upto (hi : nat) (v : value) : Prop :=
  exists s, v = VStr s /\ (length s <= hi)%nat.

Definition is_object (v : value) : Prop := exists fields, v = VObj fields.

(** What the schema asks of the required fields. *)
Definition required_ok (fields : list (jsstring * value)) : Prop :=
  trimmed_between 1 100 (get fields (str "customerId")) /\
  positive_integer (get fields (str "amount")) /\
  one_of [str "stripe"; str "shopify"; str "paddle"]
    (get fields (str "paymentProcessor")).

(** What it asks of the optional fields when they are there. *)
Definition optional_ok (fields : list (jsstring * value)) : Prop :=
  (get fields (str "eventName") = VUndefined \/
   string_upto 50 (get fields (str "eventName"))) /\
  (get fields (str "invoiceId") = VUndefined \/
   get fields (str "invoiceId") = VNull \/
   is_string (get fields (str "invoiceId"))) /\
  (get fields (str "currency") = VUndefined \/
   is_string (get fields (str "currency"))) /\
  (get fields (str "metadata") = VUndefined \/
   get fields (str "metadata") = VNull \/
   is_object (get fields (str "metadata"))).


(** [v.k] *)
Definition field (v : value) (k : jsstring) : value :=
  match v with
  | VObj fields => get fields k
  | _ => VUndefined
  end.

Definition is_number (v : value) : Prop :=
  exists n, v = VNum n /\ n <> S754_nan.

(** *** Sample values *)

Definition sample_sale : value :=
  VObj [ (str "amount", VNum (num 1000));
         (str "invoiceId", VStr (str "inv_1"));
         (str "paymentProcessor", VStr (str "stripe")) ].

(** A response whose deprecated fields differ from the nested ones. *)
Definition sample_response : value :=
  VObj [ (str "event", VStr (str "sale"));
         (str "timestamp", VStr (str "2024-01-01T00:00:00.000Z"));
         (str "eventId", VStr (str "evt_1"));
         (str "eventName", VStr (str "Purchase"));
         (str "link", VObj []);
         (str "click", VObj []);
         (str "customer", VObj []);
         (str "sale", sample_sale);
         (str "saleAmount", VNum (num 5));
         (str "invoice_id", VStr (str "inv_2"));
         (str "payment_processor", VStr (str "paddle")) ].

(** A [String(v)] for the examples; exact on strings, [null], [undefined]
    and the booleans. *)
Definition sample_coerceString (v : value) : jsstring :=
  match v with
  | VStr s => s
  | VNull => str "null"
  | VUndefined => str "undefined"
  | VBool true => str "true"
  | VBool false => str "false"
  | _ => str "[object Object]"
  end.

Definition sample_request : value :=
  VObj [ (str "customerId", VStr (str "  cus_1 "));
         (str "amount", VNum (num 1000));
         (str "paymentProcessor", VStr (str "stripe")) ].

(** *** [trackSaleResponseSchema] *)

Definition trackSaleResponseCustomer : Shape :=
  [ (str "id", z_string []);
    (str "name", z_nullable (z_string []));
    (str "email", z_nullable (z_string []));
    (str "avatar", z_nullable (z_string [])) ].

Definition trackSaleResponseSale : Shape :=
  [ (str "amount", z_number []);
    (str "currency", z_string []);
    (str "paymentProcessor", z_string []);
    (str "invoiceId", z_nullable (z_string []));
    (str "metadata", z_nullable z_record_unknown) ].

Definition trackSaleResponseSchema : Schema :=
  z_object
    [ (str "eventName", z_string []);
      (str "customer", z_object trackSaleResponseCustomer);
      (str "sale", z_object trackSaleResponseSale) ].

(** *** [saleEventSchemaTBEndpoint] *)

Definition saleEventSchemaTBEndpoint : Schema :=
  z_object
    [ (str "event", z_literal (str "sale"));
      (str "timestamp", z_string []);
      (str "event_id", z_string []);
      (str "event_name", z_string []);
      (str "customer_id", z_string []);
      (str "payment_processor", z_string []);
      (str "invoice_id", z_string []);
      (str "saleAmount", z_number []);
      (str "click_id", z_string []);
      (str "link_id", z_string []);
      (str "url", z_string []);
      (str "continent", z_nullable (z_string []));
      (str "country", z_nullable (z_string []));
      (str "city", z_nullable (z_string []));
      (str "device", z_nullable (z_string []));
      (str "browser", z_nullable (z_string []));
      (str "os", z_nullable (z_string []));
      (str "referer", z_nullable (z_string []));
      (str "referer_url", z_nullable (z_string []));
      (str "referer_url_processed", z_nullable (z_string []));
      (str "qr", z_nullable (z_number []));
      (str "ip", z_nullable (z_string [])) ].

(** *** More vocabulary *)

(** [null] or a value with the property. *)
Definition nullable (P : value -> Prop) (v : value) : Prop :=
  v = VNull \/ P v.

(** The keys of the track-sale request schema. *)
Definition trackSaleKeys : list jsstring :=
  [str "customerId"; str "amount"; str "paymentProcessor"; str "eventName";
   str "invoiceId"; str "currency"; str "metadata"].

(** The columns of the endpoint row that are strings, and those that are
    strings or [null]. *)
Definition endpointStrings : list jsstring :=
  [str "timestamp"; str "event_id"; str "event_name"; str "customer_id";
   str "payment_processor"; str "invoice_id"; str "click_id"; str "link_id";
   str "url"].

Definition endpointNullableStrings : list jsstring :=
  [str "continent"; str "country"; str "city"; str "device"; str "browser";
   str "os"; str "referer"; str "referer_url"; str "referer_url_processed";
   str "ip"].

(** A customer for the examples. *)
Definition sample_customer : value :=
  VObj [ (str "id", VStr (str "cus_1"));
         (str "name", VNull);
         (str "email", VStr (str "a@b.co"));
         (str "avatar", VNull) ].

End Zod.

(** * Properties *)

(** ** The string sanitizer *)
Module SanitizeFacts.
Import Regex Sanitize.

Lemma is_hex_not_backslash c : is_hex c = true -> (c =? c_backslash)%N = false.
Proof.
  unfold is_hex, c_backslash. intros H.
  apply N.eqb_neq. intros ->. vm_compute in H. discriminate.
Qed.

Lemma hex_run_le s : (hex_run s <= length s)%nat.
Proof. induction s as [|c s IH]; simpl; [lia|]. destruct (is_hex c); simpl; lia. Qed.

Lemma hex_run_take_drop s : take (hex_run s) s ++ drop (hex_run s) s = s.
Proof. apply take_drop. Qed.

Lemma hex_run_prefix s : forallb is_hex (take (hex_run s) s) = true.
Proof.
  induction s as [|c s IH]; simpl; [reflexivity|].
  destruct (is_hex c) eqn:Hc; simpl; [|reflexivity]. now rewrite Hc.
Qed.

(** The greedy digit loop followed by the lookahead succeeds exactly when the
    run of hex digits fits in the bound, and then consumes the whole run. *)
Lemma upto_hex_lookahead n r :
  upto n (cls is_hex) r (fun t => not_followed_by (cls is_hex) t Some)
  = if (hex_run r <=? n)%nat then Some (drop (hex_run r) r) else None.
Proof.
  revert r. induction n as [|n IH]; intros r.
  - destruct r as [|c r]; simpl; [reflexivity|].
    unfold not_followed_by, cls. destruct (is_hex c); reflexivity.
  - destruct r as [|c r]; [reflexivity|].
    cbn [upto cls hex_run]. destruct (is_hex c) eqn:Hc.
    + rewrite IH. change (S (hex_run r) <=? S n)%nat with (hex_run r <=? n)%nat.
      destruct (hex_run r <=? n)%nat; [reflexivity|].
      unfold not_followed_by, cls. now rewrite Hc.
    + unfold not_followed_by, cls. now rewrite Hc.
Qed.

Lemma regex_unfold b c r :
  problematicEscapeRegex (b :: c :: r) Some =
  if (b =? c_backslash)%N then
    match (if (c =? c_u)%N
           then upto 3 (cls is_hex) r
                  (fun t => not_followed_by (cls is_hex) t Some)
           else None) with
    | Some t => Some t
    | None =>
        if (c =? c_x)%N
        then upto 1 (cls is_hex) r
               (fun t => not_followed_by (cls is_hex) t Some)
        else None
    end
  else None.
Proof. reflexivity. Qed.

(** What the pattern matches at the start of a string. *)
Lemma match_here_problematic s :
  match_here problematicEscapeRegex s =
  if truncated_escape s
  then Some (take 2 s ++ take (hex_run (drop 2 s)) (drop 2 s))
  else None.
Proof.
  destruct s as [|b [|c r]].
  - reflexivity.
  - unfold match_here. cbn. destruct (b =? c_backslash)%N; reflexivity.
  - unfold match_here. rewrite regex_unfold. cbn [truncated_escape take drop].
    destruct (b =? c_backslash)%N; [|reflexivity]. cbn [andb].
    rewrite !upto_hex_lookahead.
    assert (Hlen : forall t : jsstring,
      take (length (b :: c :: t) - length (drop (hex_run t) t)) (b :: c :: t)
      = [b; c] ++ take (hex_run t) t).
    { intros t. pose proof (hex_run_le t). rewrite length_drop.
      replace (length (b :: c :: t) - (length t - hex_run t))%nat
        with (S (S (hex_run t))) by (simpl; lia).
      reflexivity. }
    destruct (c =? c_u)%N eqn:Hu.
    + assert (Hx : (c =? c_x)%N = false).
      { apply N.eqb_eq in Hu. subst c. reflexivity. }
      rewrite Hx. cbn [andb orb].
      replace (hex_run r <? 4)%nat with (hex_run r <=? 3)%nat
        by (destruct (Nat.leb_spec (hex_run r) 3), (Nat.ltb_spec (hex_run r) 4);
            reflexivity || lia).
      destruct (hex_run r <=? 3)%nat; [|reflexivity].
      now rewrite Hlen.
    + cbn [andb orb]. destruct (c =? c_x)%N; [|reflexivity]. cbn [andb].
      replace (hex_run r <? 2)%nat with (hex_run r <=? 1)%nat
        by (destruct (Nat.leb_spec (hex_run r) 1), (Nat.ltb_spec (hex_run r) 2);
            reflexivity || lia).
      destruct (hex_run r <=? 1)%nat; [|reflexivity].
      now rewrite Hlen.
Qed.

(** Passing over the rest of a match. *)
Lemma replace_from_skip m f (t s : jsstring) :
  replace_from m f (length t) (t ++ s) = replace_from m f 0 s.
Proof.
  induction t as [|c t IH]; [reflexivity|]. simpl. exact IH.
Qed.

Lemma truncated_escape_not_backslash c s :
  (c =? c_backslash)%N = false -> truncated_escape (c :: s) = false.
Proof. intros H. destruct s; simpl; [reflexivity|]. now rewrite H. Qed.

Lemma double_truncated_digits (t s : jsstring) :
  forallb is_hex t = true ->
  double_truncated (t ++ s) = t ++ double_truncated s.
Proof.
  induction t as [|c t IH]; intros H; [reflexivity|].
  cbn [forallb] in H. apply andb_prop in H as [Hc Ht].
  change ((c :: t) ++ s) with (c :: (t ++ s)). cbn [double_truncated].
  rewrite (truncated_escape_not_backslash c (t ++ s)
             (is_hex_not_backslash c Hc)).
  now rewrite (IH Ht).
Qed.

(** The global replace of the sanitizer computes [double_truncated]. *)
Lemma replace_all_double_truncated s :
  replace_all problematicEscapeRegex
    (fun t => replace_first c_backslash [c_backslash; c_backslash] t) s
  = double_truncated s.
Proof.
  unfold replace_all.
  remember (length s) as n eqn:Hn.
  assert (Hle : (length s <= n)%nat) by lia. clear Hn.
  revert s Hle. induction n as [|n IH]; intros s Hle.
  - destruct s; [reflexivity | simpl in Hle; lia].
  - destruct s as [|b s']; [reflexivity|].
    cbn [replace_from double_truncated].
    rewrite match_here_problematic.
    destruct (truncated_escape (b :: s')) eqn:Ht.
    + destruct s' as [|c r]; [discriminate|].
      cbn [truncated_escape] in Ht.
      apply andb_prop in Ht as [Hb Hc].
      change (take 2 (b :: c :: r)) with [b; c].
      change (drop 2 (b :: c :: r)) with r.
      assert (Hcb : (c =? c_backslash)%N = false).
      { apply orb_prop in Hc as [Hc|Hc]; apply andb_prop in Hc as [Hc _];
          apply N.eqb_eq in Hc; subst c; reflexivity. }
      change ([b; c] ++ take (hex_run r) r) with (b :: c :: take (hex_run r) r).
      cbn iota beta. cbn [replace_first]. rewrite Hb. cbn [app length].
      apply N.eqb_eq in Hb. subst b.
      pose proof (hex_run_take_drop r) as Hr.
      pose proof (hex_run_prefix r) as Hp.
      assert (Hd : (length (drop (hex_run r) r) <= n)%nat)
        by (rewrite length_drop; simpl in Hle; lia).
      remember (take (hex_run r) r) as t eqn:Et.
      remember (drop (hex_run r) r) as d eqn:Ed.
      clear Et Ed Hc Hle. subst r.
      cbn [replace_from double_truncated].
      rewrite replace_from_skip, (IH d Hd).
      rewrite (truncated_escape_not_backslash c (t ++ d) Hcb).
      rewrite (double_truncated_digits t d Hp).
      reflexivity.
    + rewrite IH by (simpl in Hle; lia). reflexivity.
Qed.

Lemma double_truncated_id s :
  has_truncated_escape s = false -> double_truncated s = s.
Proof.
  induction s as [|c s IH]; intros H; [reflexivity|].
  cbn [has_truncated_escape] in H. apply orb_false_elim in H as [H1 H2].
  cbn [double_truncated]. rewrite H1, (IH H2). reflexivity.
Qed.

Lemma double_truncated_length s :
  (length s <= length (double_truncated s))%nat.
Proof.
  induction s as [|c s IH]; simpl; [lia|].
  destruct (match s with [] => false | _ => _ end); simpl; lia.
Qed.

Lemma double_truncated_sublist s : sublist s (double_truncated s).
Proof.
  induction s as [|c s IH]; [constructor|].
  cbn [double_truncated]. destruct (truncated_escape (c :: s)).
  - apply sublist_cons. now apply sublist_skip.
  - now apply sublist_skip.
Qed.

Lemma test_has_truncated_escape s :
  test problematicEscapeRegex s = has_truncated_escape s.
Proof.
  induction s as [|c s IH]; [reflexivity|].
  cbn [test has_truncated_escape]. rewrite match_here_problematic.
  destruct (truncated_escape (c :: s)); [reflexivity | exact IH].
Qed.

Lemma hex_run_double_truncated s :
  hex_run (double_truncated s) = hex_run s.
Proof.
  induction s as [|c s IH]; [reflexivity|].
  cbn [double_truncated hex_run].
  destruct (is_hex c) eqn:Hc.
  - rewrite (truncated_escape_not_backslash c s (is_hex_not_backslash c Hc)).
    cbn [hex_run]. now rewrite Hc, IH.
  - destruct (truncated_escape (c :: s)); cbn [hex_run]; [|now rewrite Hc].
    reflexivity.
Qed.

Lemma truncated_escape_double_truncated c s :
  truncated_escape (c :: double_truncated s) = truncated_escape (c :: s).
Proof.
  destruct s as [|c2 r]; [reflexivity|].
  cbn [double_truncated].
  destruct (truncated_escape (c2 :: r)) eqn:Ht.
  - destruct r as [|c3 r']; [discriminate|].
    cbn [truncated_escape] in Ht. apply andb_prop in Ht as [Hb _].
    apply N.eqb_eq in Hb. subst c2.
    cbn [truncated_escape]. cbn. now rewrite !andb_false_r.
  - cbn [truncated_escape]. now rewrite hex_run_double_truncated.
Qed.

Lemma has_truncated_escape_double_truncated s :
  has_truncated_escape (double_truncated s) = has_truncated_escape s.
Proof.
  induction s as [|c s IH]; [reflexivity|].
  cbn [double_truncated].
  destruct (truncated_escape (c :: s)) eqn:Ht.
  - cbn [has_truncated_escape]. fold (double_truncated s).
    rewrite truncated_escape_double_truncated, Ht.
    now rewrite orb_true_l, orb_true_r.
  - cbn [has_truncated_escape]. fold (double_truncated s).
    now rewrite truncated_escape_double_truncated, Ht, IH.
Qed.

(** C3, as the code has it. [sanitizeString] returns a string with the
    backslash of every truncated escape doubled and nothing else changed.
    The escapes themselves stay, each after the added backslash: the output
    matches the pattern exactly when the input does. A string without the
    pattern is returned as it is, and so are [null] and [undefined]. The
    pattern of the specification is the one the regular expression tests. *)
Theorem sanitizeString_doubles_backslashes (s : jsstring) :
  sanitizeString (SStr s) = SStr (double_truncated s) /\
  test problematicEscapeRegex s = has_truncated_escape s /\
  has_truncated_escape (double_truncated s) = has_truncated_escape s /\
  (has_truncated_escape s = false -> sanitizeString (SStr s) = SStr s) /\
  sanitizeString SNull = SNull /\
  sanitizeString SUndefined = SUndefined.
Proof.
  assert (Hs : sanitizeString (SStr s) = SStr (double_truncated s)).
  { destruct s as [|c s]; [reflexivity|].
    unfold sanitizeString, sanitizeTry. cbn [truthy negb].
    now rewrite replace_all_double_truncated. }
  split; [exact Hs|]. split; [apply test_has_truncated_escape|].
  split; [apply has_truncated_escape_double_truncated|].
  split; [|split; reflexivity].
  intros Hno. now rewrite Hs, double_truncated_id.
Qed.

Lemma sanitizeString_doubles_backslashes_witness :
  has_truncated_escape (str "https://ex.com/a\b") = false /\
  sanitizeString (SStr (str "https://ex.com/a\b"))
    = SStr (str "https://ex.com/a\b").
Proof.
  split; [reflexivity|].
  exact (proj1 (proj2 (proj2 (proj2
           (sanitizeString_doubles_backslashes (str "https://ex.com/a\b")))))
           eq_refl).
Defined.

(** C3, as the specification has it, fails: a truncated escape remains
    after the doubled backslash. The output for [\u12] still matches the
    pattern; and for [\\u12], which matches it too, the output [\\\u12]
    has a truncated escape even for a reader that takes [\\] as an escaped
    backslash. *)
Lemma sanitizeString_keeps_truncated_escape :
  has_truncated_escape (str "\u12") = true /\
  sanitizeString (SStr (str "\u12")) = SStr (str "\\u12") /\
  has_truncated_escape (str "\\u12") = true /\
  sanitizeString (SStr (str "\\u12")) = SStr (str "\\\u12") /\
  has_unescaped_truncated false (str "\\\u12") = true.
Proof. repeat split; vm_compute; reflexivity. Qed.

End SanitizeFacts.

(** ** The Bitly importer *)
Module BitlyFacts.
Import Sanitize Bitly.

Lemma includes_In a x : includes a x = true <-> In x a.
Proof.
  unfold includes. rewrite existsb_exists. split.
  - intros (y & Hy & E). apply bool_decide_eq_true in E. now subst.
  - intros Hx. exists x. split; [exact Hx|]. now apply bool_decide_eq_true.
Qed.

Lemma filter_negb_length {A} (p : A -> bool) (l : list A) :
  length (List.filter (fun x => negb (p x)) l)
  = (length l - length (List.filter p l))%nat.
Proof.
  induction l as [|x l IH]; [reflexivity|]. simpl.
  pose proof (List.filter_length_le p l).
  destruct (p x); simpl; rewrite IH; lia.
Qed.

Section Facts.
Context `{Runtime}.

Lemma some_already_created (keys : list jsstring) (db : list Link.t) s :
  includes keys s = true ->
  existsb (fun l => bool_decide (l = s))
    (map Link.shortLink
       (List.filter (fun l => includes keys (Link.shortLink l)) db))
  = includes (map Link.shortLink db) s.
Proof.
  intros Hs. unfold includes at 2.
  induction db as [|d db IH]; [reflexivity|].
  cbn [List.filter map existsb].
  destruct (includes keys (Link.shortLink d)) eqn:Hd.
  - cbn [map existsb]. now rewrite IH.
  - rewrite IH. destruct (bool_decide_reflect (Link.shortLink d = s)) as [E|E].
    + rewrite E in Hd. congruence.
    + reflexivity.
Qed.

Lemma linksToCreate_new (w : World) (batch : list Link.t) :
  linksToCreate batch
    (map Link.shortLink
       (List.filter
          (fun l => includes (map Link.shortLink batch) (Link.shortLink l))
          (links w)))
  = List.filter (fun l => negb (present w (Link.shortLink l))) batch.
Proof.
  unfold linksToCreate, present. apply List.filter_ext_in. intros l Hl.
  rewrite some_already_created; [reflexivity|].
  apply includes_In. now apply in_map.
Qed.

(** The first half of every invocation whose transform does not throw. *)
Lemma import_persists (r : Req.t) (w : World) (batch : list Link.t) :
  transformed r = Ok batch ->
  importLinksFromBitly r w =
  (let w1 := persisted r batch w in
   let count := (Req.count r + Z.of_nat (length batch))%Z in
   if bool_decide (search_after (fetched r) = [])
   then
     (workspace <-
        prisma_project_findUnique (Req.workspaceId r) (Req.domains r) ;;
      ownerEmail <- lift (ownerEmailOf workspace) ;;
      redis_del (str "import:bitly:" ++ Req.workspaceId r) ;;;
      redis_del (str "import:bitly:" ++ Req.workspaceId r ++ str ":tags") ;;;
      prisma_tag_deleteMany (Req.workspaceId r) ;;;
      sendEmail
        {| subject := str "Your Bitly links have been imported!";
           email := ownerEmail;
           provider := str "Bitly";
           email_count := count;
           email_links :=
             match workspace with Some ws => ws_links ws | None => [] end;
           email_domains := Req.domains r;
           workspaceName :=
             match workspace with Some ws => ws_name ws | None => [] end;
           workspaceSlug :=
             match workspace with Some ws => ws_slug ws | None => [] end |} ;;;
      ret (RetCount count)) w1
   else
     (m <- qstash_publishJSON
             (continuation r (search_after (fetched r)) count) ;;
      ret (RetPublished m)) w1).
Proof.
  unfold transformed, fetched. intros Ht.
  unfold importLinksFromBitly.
  unfold bind at 1. unfold fetch at 1. cbv iota beta.
  unfold bind at 1. unfold lift at 1. rewrite Ht. cbv iota beta.
  unfold bind at 1. unfold prisma_link_findMany at 1. cbv iota beta.
  unfold bind at 1. unfold bulkCreateLinks at 1. cbv iota beta.
  unfold bind at 1. unfold sleep at 1. cbv iota beta.
  unfold call. cbn [links projects tags redis outbox queue trace].
  rewrite linksToCreate_new. unfold persisted.
  rewrite <- !app_assoc. cbn [app].
  destruct (bool_decide _); reflexivity.
Qed.

(** *** The transform *)

Lemma sanitizeString_cons c s :
  sanitizeString (SStr (c :: s)) = SStr (double_truncated (c :: s)).
Proof.
  unfold sanitizeString, sanitizeTry. cbn [truthy negb].
  now rewrite SanitizeFacts.replace_all_double_truncated.
Qed.

Lemma double_truncated_cons c s : double_truncated (c :: s) <> [].
Proof.
  cbn [double_truncated]. destruct (truncated_escape (c :: s)); discriminate.
Qed.

Lemma sanitized_url_nonempty v :
  truthy v = true -> or_default (sanitizeString v) [] <> [].
Proof.
  destruct v as [| |[|c s]]; try discriminate. intros _.
  rewrite sanitizeString_cons.
  pose proof (double_truncated_cons c s) as Hne.
  destruct (double_truncated (c :: s)); [congruence|]. discriminate.
Qed.

Lemma keepCustomBitlink_valid domains cb :
  keepCustomBitlink domains cb = true <-> valid_alias domains cb.
Proof.
  unfold keepCustomBitlink, valid_alias. destruct (parseURL cb) as [u|].
  - rewrite includes_In. split.
    + intros Hin. now exists u.
    + intros (u' & E & Hin). now inversion E; subst.
  - split; [discriminate|]. intros (u' & E & _). discriminate.
Qed.

Lemma custom_links_entries primary domains cbs :
  Forall2 (alias_entry primary)
    (List.filter (keepCustomBitlink domains) cbs)
    (filter_Boolean
       (map (customLink primary)
          (List.filter (keepCustomBitlink domains) cbs))).
Proof.
  induction cbs as [|cb cbs IH]; [constructor|].
  cbn [List.filter]. destruct (keepCustomBitlink domains cb) eqn:Hk; [|exact IH].
  unfold keepCustomBitlink in Hk.
  cbn [map]. unfold filter_Boolean. cbn [flat_map].
  unfold customLink at 1.
  destruct (parseURL cb) as [u|] eqn:Hu; [|discriminate].
  cbn [app]. constructor; [|exact IH].
  exists u. rewrite Hu. cbn. repeat split; reflexivity.
Qed.

Lemma flatMapM_app {A B} (f : A -> result (list B)) (a b : list A) xs ys :
  flatMapM f a = Ok xs -> flatMapM f b = Ok ys ->
  flatMapM f (a ++ b) = Ok (xs ++ ys).
Proof.
  revert xs. induction a as [|x a IH]; intros xs; cbn [flatMapM app].
  - intros E. inversion E. tauto.
  - destruct (f x) as [zs|e]; [|discriminate].
    destruct (flatMapM f a) as [ws|e]; [|discriminate].
    intros E Hb. inversion E; subst xs.
    rewrite (IH ws eq_refl Hb). now rewrite app_assoc.
Qed.

(** C5, as the code has it. A link that has an id and a URL, whose domain
    is one of the workspace's, and whose [created_at] converts to a date,
    becomes its own entry followed by one entry per custom bitlink that
    parses as a URL with a host among the domains, in order: with [M] such
    bitlinks, the callback returns [1 + M] entries, and they are the part
    of the batch that the link contributes. Each of those entries has the
    URL of the first, and the domain and key of its bitlink. The other
    bitlinks are left out and the callback still returns. *)
Theorem custom_bitlinks_expand (r : Req.t) (l : Ext.t) (createdAt : jsstring) :
  truthy (Ext.id l) = true ->
  truthy (Ext.long_url l) = true ->
  includes (Req.domains r)
    (hd [] (split c_slash (or_default (Ext.id l) []))) = true ->
  toISOString (Ext.created_at l) = Some createdAt ->
  let aliases := default [] (Ext.custom_bitlinks l) in
  let kept := List.filter (keepCustomBitlink (Req.domains r)) aliases in
  exists primary entries,
    convert r l = Ok (Emit (primary :: entries)) /\
    convertLink r l = Ok (primary :: entries) /\
    (forall before after bs cs,
        page_links (fetched r) = before ++ l :: after ->
        flatMapM (convertLink r) before = Ok bs ->
        flatMapM (convertLink r) after = Ok cs ->
        transformed r = Ok (bs ++ (primary :: entries) ++ cs)) /\
    Link.domain primary = hd [] (split c_slash (or_default (Ext.id l) [])) /\
    Link.key primary = split c_slash (or_default (Ext.id l) []) !! 1%nat /\
    Link.url primary = or_default (sanitizeString (Ext.long_url l)) [] /\
    Link.createdAt primary = createdAt /\
    Forall2 (alias_entry primary) kept entries /\
    length (primary :: entries) = (1 + length kept)%nat /\
    (forall cb, In cb kept <->
                In cb aliases /\ valid_alias (Req.domains r) cb).
Proof.
  intros Hid Hurl Hdom Hdate aliases kept.
  assert (Hc : exists primary entries,
    convert r l = Ok (Emit (primary :: entries)) /\
    Link.domain primary = hd [] (split c_slash (or_default (Ext.id l) [])) /\
    Link.key primary = split c_slash (or_default (Ext.id l) []) !! 1%nat /\
    Link.url primary = or_default (sanitizeString (Ext.long_url l)) [] /\
    Link.createdAt primary = createdAt /\
    Forall2 (alias_entry primary) kept entries).
  { unfold convert. rewrite Hid, Hurl, Hdom, Hdate. cbn [negb orb].
    pose proof (sanitized_url_nonempty _ Hurl) as Hne.
    rewrite bool_decide_eq_false_2 by exact Hne.
    eexists. eexists. split; [reflexivity|].
    cbn [Link.domain Link.key Link.url Link.createdAt].
    repeat (split; [reflexivity|]).
    unfold kept, aliases.
    destruct (Ext.custom_bitlinks l) as [cbs|]; cbn [default].
    - apply custom_links_entries.
    - constructor. }
  destruct Hc as (primary & entries & Hc & Hd & Hk & Hu & Hca & HF).
  assert (Hl : convertLink r l = Ok (primary :: entries))
    by (unfold convertLink; now rewrite Hc).
  exists primary, entries.
  split; [exact Hc|]. split; [exact Hl|]. split.
  { intros before after bs cs Hpage Hb Ha. unfold transformed.
    rewrite Hpage. apply flatMapM_app; [exact Hb|].
    cbn [flatMapM]. now rewrite Hl, Ha. }
  repeat (split; [assumption|]). split.
  - cbn [length]. f_equal. symmetry. eapply Forall2_length. exact HF.
  - intros cb. unfold kept. rewrite List.filter_In.
    now rewrite keepCustomBitlink_valid.
Qed.

(** C10. The branch that skips a link whose URL is empty after
    sanitization is never taken. A link that gets that far has a non-empty
    URL; on a non-empty string the sanitizer returns the string with the
    backslashes of its truncated escapes doubled, which keeps every
    character of the input in place and is not empty; the empty string is
    returned by the guard as it is. *)
Theorem empty_url_branch_unreachable :
  (forall (r : Req.t) (l : Ext.t), convert r l <> Ok SkipEmptyUrl) /\
  (forall c s,
      sanitizeString (SStr (c :: s)) = SStr (double_truncated (c :: s)) /\
      double_truncated (c :: s) <> [] /\
      sublist (c :: s) (double_truncated (c :: s)) /\
      (length (c :: s) <= length (double_truncated (c :: s)))%nat) /\
  sanitizeString (SStr []) = SStr [].
Proof.
  split; [|split]; [| |reflexivity].
  - intros r l. unfold convert.
    destruct (truthy (Ext.id l)); [|discriminate].
    destruct (truthy (Ext.long_url l)) eqn:Hurl; [|discriminate].
    cbn [negb orb].
    destruct (negb (includes _ _)); [discriminate|].
    rewrite bool_decide_eq_false_2 by (apply sanitized_url_nonempty, Hurl).
    destruct (toISOString _); discriminate.
  - intros c s. split; [apply sanitizeString_cons|].
    split; [apply double_truncated_cons|].
    split; [apply SanitizeFacts.double_truncated_sublist|].
    apply SanitizeFacts.double_truncated_length.
Qed.

(** *** The two ways an invocation ends *)

Lemma ownerEmailOf_persisted r batch w :
  ownerEmailOf
    (selectWorkspace (persisted r batch w) (Req.workspaceId r) (Req.domains r))
  = ownerEmailOf (selectWorkspace w (Req.workspaceId r) (Req.domains r)).
Proof.
  unfold selectWorkspace. cbn [projects persisted].
  destruct (List.find _ (projects w)); reflexivity.
Qed.

Lemma import_continues r w batch :
  transformed r = Ok batch ->
  search_after (fetched r) <> [] ->
  importLinksFromBitly r w =
  (continued r batch w,
   Ok (RetPublished
         (continuation r (search_after (fetched r)) (newCount r batch)))).
Proof.
  intros Ht Hc. rewrite (import_persists r w batch Ht). cbv zeta.
  rewrite bool_decide_eq_false_2 by exact Hc.
  unfold bind, qstash_publishJSON, ret, continued. cbv iota beta.
  reflexivity.
Qed.

Lemma import_completes r w batch owner :
  transformed r = Ok batch ->
  search_after (fetched r) = [] ->
  ownerEmailOf (selectWorkspace w (Req.workspaceId r) (Req.domains r))
    = Ok owner ->
  importLinksFromBitly r w =
  (finalized r batch w owner, Ok (RetCount (newCount r batch))).
Proof.
  intros Ht Hc Ho. rewrite (import_persists r w batch Ht). cbv zeta.
  rewrite bool_decide_eq_true_2 by exact Hc.
  rewrite <- (ownerEmailOf_persisted r batch w) in Ho.
  unfold bind at 1. unfold prisma_project_findUnique at 1. cbv iota beta.
  unfold bind at 1. unfold lift at 1.
  rewrite Ho. cbv iota beta.
  unfold bind, redis_del, prisma_tag_deleteMany, sendEmail, ret, call.
  cbv iota beta.
  cbn [links projects tags redis outbox queue trace].
  unfold finalized, completionEmail, flagKey, tagsFlagKey, newCount.
  cbv zeta. rewrite <- !app_assoc. cbn [app].
  reflexivity.
Qed.

Lemma import_fails_without_owner r w batch e :
  transformed r = Ok batch ->
  search_after (fetched r) = [] ->
  ownerEmailOf (selectWorkspace w (Req.workspaceId r) (Req.domains r))
    = Throw e ->
  importLinksFromBitly r w =
  (call (CProjectFindUnique (Req.workspaceId r) (Req.domains r))
     (persisted r batch w), Throw e).
Proof.
  intros Ht Hc Ho. rewrite (import_persists r w batch Ht). cbv zeta.
  rewrite bool_decide_eq_true_2 by exact Hc.
  rewrite <- (ownerEmailOf_persisted r batch w) in Ho.
  unfold bind at 1. unfold prisma_project_findUnique at 1. cbv iota beta.
  unfold bind at 1. unfold lift at 1.
  rewrite Ho. reflexivity.
Qed.

Lemma import_aborts r w e :
  transformed r = Throw e ->
  importLinksFromBitly r w =
  (call (CFetch (bitlinksUrl r) (str "Bearer " ++ Req.bitlyApiKey r)) w,
   Throw e).
Proof.
  unfold transformed, fetched. intros Ht. unfold importLinksFromBitly.
  unfold bind at 1. unfold fetch at 1. cbv iota beta.
  unfold bind at 1. unfold lift at 1. rewrite Ht. reflexivity.
Qed.

(** Whatever the branch, the links are those of [persisted] and the calls
    start with those of [persisted]; no later call is a bulk insert. *)
Lemma import_links_trace r w batch :
  transformed r = Ok batch ->
  let w' := fst (importLinksFromBitly r w) in
  links w' = links (persisted r batch w) /\
  exists post,
    trace w' = trace (persisted r batch w) ++ post /\
    Forall (fun c => forall ls, c <> CBulkCreateLinks ls) post.
Proof.
  intros Ht.
  destruct (decide (search_after (fetched r) = [])) as [Hc|Hc].
  - destruct (ownerEmailOf
                (selectWorkspace w (Req.workspaceId r) (Req.domains r)))
      as [owner|e] eqn:Ho.
    + rewrite (import_completes r w batch owner Ht Hc Ho). cbn [fst].
      split; [reflexivity|]. eexists. split; [reflexivity|].
      repeat constructor; discriminate.
    + rewrite (import_fails_without_owner r w batch e Ht Hc Ho). cbn [fst].
      split; [reflexivity|]. eexists. split; [reflexivity|].
      repeat constructor; discriminate.
  - rewrite (import_continues r w batch Ht Hc). cbn [fst].
    split; [reflexivity|]. eexists. split; [reflexivity|].
    repeat constructor; discriminate.
Qed.

(** *** The calls of an invocation *)

Ltac calls :=
  unfold bulkInserts, publishes, redisDels, tagDeletes, emailsSent;
  rewrite ?flat_map_app; cbn [flat_map app]; rewrite ?app_nil_r.

Lemma persisted_calls r batch w :
  bulkInserts (trace (persisted r batch w))
  = bulkInserts (trace w)
    ++ [List.filter (fun l => negb (present w (Link.shortLink l))) batch] /\
  publishes (trace (persisted r batch w)) = publishes (trace w) /\
  redisDels (trace (persisted r batch w)) = redisDels (trace w) /\
  tagDeletes (trace (persisted r batch w)) = tagDeletes (trace w) /\
  emailsSent (trace (persisted r batch w)) = emailsSent (trace w).
Proof. unfold persisted. cbn [trace]. calls. repeat split; reflexivity. Qed.

Lemma bulkInserts_import r w batch :
  transformed r = Ok batch ->
  bulkInserts (trace (fst (importLinksFromBitly r w)))
  = bulkInserts (trace w)
    ++ [List.filter (fun l => negb (present w (Link.shortLink l))) batch].
Proof.
  intros Ht.
  destruct (import_links_trace r w batch Ht) as (_ & post & -> & Hpost).
  unfold bulkInserts at 1. rewrite flat_map_app.
  fold (bulkInserts (trace (persisted r batch w))).
  destruct (persisted_calls r batch w) as (-> & _).
  rewrite <- app_nil_r. f_equal.
  induction Hpost as [|c post Hc _ IH]; [reflexivity|].
  cbn [flat_map]. rewrite IH.
  destruct c; try reflexivity. now specialize (Hc links0).
Qed.

(** C4. Of a batch of [K] links of which [J] have a short link that is
    already in persistence, the one bulk insert of the invocation is given
    the [K - J] others: the entries, in order, whose short link is that of
    no existing record. *)
Theorem dedup_passes_new (r : Req.t) (w : World) (batch : list Link.t) :
  transformed r = Ok batch ->
  let w' := fst (importLinksFromBitly r w) in
  let J :=
    length (List.filter (fun l => present w (Link.shortLink l)) batch) in
  let new :=
    List.filter (fun l => negb (present w (Link.shortLink l))) batch in
  bulkInserts (trace w') = bulkInserts (trace w) ++ [new] /\
  length new = (length batch - J)%nat /\
  (forall l, In l new <->
             In l batch /\
             ~ In (Link.shortLink l) (map Link.shortLink (links w))).
Proof.
  intros Ht w' J new. split; [|split].
  - apply (bulkInserts_import r w batch Ht).
  - apply filter_negb_length.
  - intros l. unfold new. rewrite List.filter_In.
    unfold present. rewrite negb_true_iff, <- not_true_iff_false.
    now rewrite includes_In.
Qed.

(** C9. Links are compared with persistence only, not with one another:
    when a short link is that of no existing record, every entry of the
    batch that has it, however many there are, is in the list given to the
    bulk insert. *)
Theorem duplicates_within_batch_inserted (r : Req.t) (w : World)
    (batch : list Link.t) (s : jsstring) :
  transformed r = Ok batch ->
  present w s = false ->
  exists new,
    bulkInserts (trace (fst (importLinksFromBitly r w)))
    = bulkInserts (trace w) ++ [new] /\
    List.filter (has_shortLink s) new = List.filter (has_shortLink s) batch.
Proof.
  intros Ht Hs. eexists. split; [apply (bulkInserts_import r w batch Ht)|].
  clear Ht. induction batch as [|l batch IH]; [reflexivity|].
  cbn [List.filter]. unfold has_shortLink at 2.
  destruct (bool_decide_reflect (Link.shortLink l = s)) as [E|E].
  - rewrite E, Hs. cbn [negb List.filter]. unfold has_shortLink at 1.
    rewrite bool_decide_eq_true_2 by exact E. now rewrite IH.
  - destruct (negb (present w (Link.shortLink l))); [|exact IH].
    cbn [List.filter]. unfold has_shortLink at 1.
    rewrite bool_decide_eq_false_2 by exact E. exact IH.
Qed.

(** C8. The running count grows by the number of links the transform made
    of the page, those already in persistence included, while only the
    others are inserted. The grown count is the count of the continuation
    message, and on completion the count returned and the count of the
    email. With [J > 0] links already present the count grows by more than
    the number of records inserted. *)
Theorem count_counts_transformed (r : Req.t) (w : World)
    (batch : list Link.t) :
  transformed r = Ok batch ->
  let w' := fst (importLinksFromBitly r w) in
  let res := snd (importLinksFromBitly r w) in
  let J :=
    length (List.filter (fun l => present w (Link.shortLink l)) batch) in
  let count' := (Req.count r + Z.of_nat (length batch))%Z in
  (exists new,
      links w' = links w ++ new /\ length new = (length batch - J)%nat /\
      ((0 < J)%nat -> (Req.count r + Z.of_nat (length new) < count')%Z)) /\
  (search_after (fetched r) <> [] ->
   exists m, res = Ok (RetPublished m) /\ Body.count (msg_body m) = count') /\
  (search_after (fetched r) = [] ->
   forall owner,
     ownerEmailOf (selectWorkspace w (Req.workspaceId r) (Req.domains r))
       = Ok owner ->
     res = Ok (RetCount count') /\
     exists e, emailsSent (trace w') = emailsSent (trace w) ++ [e] /\
               email_count e = count').
Proof.
  intros Ht w' res J count'. split; [|split].
  - destruct (import_links_trace r w batch Ht) as (Hl & _).
    eexists. split; [exact Hl|]. split; [apply filter_negb_length|].
    intros HJ. rewrite filter_negb_length. unfold count'.
    pose proof (List.filter_length_le
                  (fun l => present w (Link.shortLink l)) batch) as Hle.
    fold J in Hle. lia.
  - intros Hc. unfold res. rewrite (import_continues r w batch Ht Hc).
    eexists. split; reflexivity.
  - intros Hc owner Ho. unfold res, w'.
    rewrite (import_completes r w batch owner Ht Hc Ho). cbn [fst snd].
    split; [reflexivity|].
    destruct (persisted_calls r batch w) as (_ & _ & _ & _ & E).
    unfold emailsSent in E.
    eexists. split.
    + unfold finalized. cbn [trace]. calls. rewrite E. reflexivity.
    + reflexivity.
Qed.


(** C2, as the code has it. When the next cursor of the fetched page is not
    empty (and the transform raises no exception), the invocation publishes
    one message to [APP_DOMAIN_WITH_NGROK/api/cron/import/bitly]. Its body
    has the workspace id, the user id, the Bitly group, the domains and the
    folder id of the request unchanged, a flag [importTags] that says
    whether a tag mapping was given, the next cursor and the grown count.
    The invocation deletes no key and no tag and sends no email. *)
Theorem continuation_published (r : Req.t) (w : World)
    (batch : list Link.t) :
  transformed r = Ok batch ->
  search_after (fetched r) <> [] ->
  let w' := fst (importLinksFromBitly r w) in
  exists m,
    snd (importLinksFromBitly r w) = Ok (RetPublished m) /\
    publishes (trace w') = publishes (trace w) ++ [m] /\
    queue w' = queue w ++ [m] /\
    msg_url m = APP_DOMAIN_WITH_NGROK ++ str "/api/cron/import/bitly" /\
    msg_body m =
      Body.mk (Req.workspaceId r) (Req.userId r) (Req.bitlyGroup r)
        (Req.domains r) (Req.folderId r)
        (bool_decide (Req.tagsToId r <> None))
        (search_after (fetched r))
        (Req.count r + Z.of_nat (length batch))%Z /\
    redisDels (trace w') = redisDels (trace w) /\
    tagDeletes (trace w') = tagDeletes (trace w) /\
    emailsSent (trace w') = emailsSent (trace w) /\
    redis w' = redis w /\ tags w' = tags w /\ outbox w' = outbox w.
Proof.
  intros Ht Hc w'. unfold w'.
  rewrite (import_continues r w batch Ht Hc). cbn [fst snd].
  destruct (persisted_calls r batch w) as (_ & Ep & Er & Et & Ee).
  unfold publishes, redisDels, tagDeletes, emailsSent in Ep, Er, Et, Ee.
  eexists. split; [reflexivity|].
  split; [unfold continued; cbn [trace]; calls; now rewrite Ep|].
  split; [reflexivity|]. split; [reflexivity|].
  split; [unfold continuation, newCount; cbn [msg_body];
          destruct (Req.tagsToId r); reflexivity|].
  split; [unfold continued; cbn [trace]; calls; now rewrite Er|].
  split; [unfold continued; cbn [trace]; calls; now rewrite Et|].
  split; [unfold continued; cbn [trace]; calls; now rewrite Ee|].
  repeat split; reflexivity.
Qed.

End Facts.

(** *** The properties on the sample data *)

Lemma custom_bitlinks_expand_witness :
  truthy (Ext.id sample_link) = true /\
  truthy (Ext.long_url sample_link) = true /\
  includes (Req.domains sample_request)
    (hd [] (split c_slash (or_default (Ext.id sample_link) []))) = true /\
  @toISOString (sampleRuntime (sample_page []))
    (Ext.created_at sample_link) = Some (str "2024-01-01T00:00:00.000Z") /\
  exists primary entries,
    @convertLink (sampleRuntime (sample_page [])) sample_request sample_link
      = Ok (primary :: entries) /\
    @transformed (sampleRuntime (sample_page [])) sample_request
      = Ok (primary :: entries) /\
    length (primary :: entries) = 2%nat.
Proof.
  split; [reflexivity|]. split; [reflexivity|]. split; [reflexivity|].
  split; [reflexivity|].
  destruct (@custom_bitlinks_expand (sampleRuntime (sample_page []))
              sample_request sample_link (str "2024-01-01T00:00:00.000Z")
              eq_refl eq_refl eq_refl eq_refl)
    as (primary & entries & _ & Hc & Hb & _ & _ & _ & _ & _ & Hlen & _).
  exists primary, entries. split; [exact Hc|]. split; [|exact Hlen].
  rewrite (Hb [] [] [] [] eq_refl eq_refl eq_refl).
  cbn [app]. now rewrite app_nil_r.
Defined.

(** C5, as the specification has it, fails: the guards do not look at
    [created_at]. A link with an id, a URL, a claimed domain and one valid
    custom bitlink of two, whose [created_at] is the empty string, gives no
    entry: the callback throws the [RangeError] of [toISOString], and the
    batch of the page fails with it, the entries of the link before it
    included. *)
Lemma custom_bitlinks_lost_to_invalid_date :
  truthy (Ext.id sample_link_undated_alias) = true /\
  truthy (Ext.long_url sample_link_undated_alias) = true /\
  includes (Req.domains sample_request)
    (hd [] (split c_slash
              (or_default (Ext.id sample_link_undated_alias) []))) = true /\
  or_default (sanitizeString (Ext.long_url sample_link_undated_alias)) []
    <> [] /\
  List.filter
    (@keepCustomBitlink (sampleRuntime sample_page_undated_alias)
       (Req.domains sample_request))
    (default [] (Ext.custom_bitlinks sample_link_undated_alias))
    = [str "https://short.io/sale"] /\
  @convertLink (sampleRuntime sample_page_undated_alias) sample_request
    sample_link_undated_alias = Throw RangeError /\
  @transformed (sampleRuntime sample_page_undated_alias) sample_request
    = Throw RangeError.
Proof.
  split; [reflexivity|]. split; [reflexivity|]. split; [reflexivity|].
  split; [vm_compute; discriminate|].
  split; [reflexivity|]. split; reflexivity.
Qed.

Lemma dedup_passes_new_witness :
  @transformed (sampleRuntime (sample_page [])) sample_request
    = Ok sample_batch /\
  length sample_batch = 2%nat /\
  exists new,
    bulkInserts
      (trace (fst (@importLinksFromBitly (sampleRuntime (sample_page []))
                     sample_request sample_world_imported))) = [new] /\
    length new = 1%nat.
Proof.
  split; [reflexivity|]. split; [reflexivity|].
  destruct (@dedup_passes_new (sampleRuntime (sample_page []))
              sample_request sample_world_imported sample_batch eq_refl)
    as (Hcall & Hlen & _).
  eexists. split; [exact Hcall | exact Hlen].
Defined.

Lemma duplicates_within_batch_inserted_witness :
  @transformed (sampleRuntime sample_page_twice) sample_request
    = Ok sample_batch_twice /\
  present sample_world (str "https://short.io/abc") = false /\
  exists new,
    bulkInserts
      (trace (fst (@importLinksFromBitly (sampleRuntime sample_page_twice)
                     sample_request sample_world))) = [new] /\
    length (List.filter (has_shortLink (str "https://short.io/abc")) new)
      = 2%nat.
Proof.
  split; [reflexivity|]. split; [reflexivity|].
  destruct (@duplicates_within_batch_inserted
              (sampleRuntime sample_page_twice) sample_request sample_world
              sample_batch_twice (str "https://short.io/abc")
              eq_refl eq_refl)
    as (new & Hcall & Hsame).
  exists new. split; [exact Hcall|]. rewrite Hsame. reflexivity.
Defined.

Lemma count_counts_transformed_witness :
  @transformed (sampleRuntime (sample_page [])) sample_request
    = Ok sample_batch /\
  snd (@importLinksFromBitly (sampleRuntime (sample_page []))
         sample_request sample_world_imported) = Ok (RetCount 2) /\
  exists new,
    links (fst (@importLinksFromBitly (sampleRuntime (sample_page []))
                  sample_request sample_world_imported))
      = links sample_world_imported ++ new /\
    length new = 1%nat.
Proof.
  split; [reflexivity|].
  destruct (@count_counts_transformed (sampleRuntime (sample_page []))
              sample_request sample_world_imported sample_batch eq_refl)
    as ((new & Hl & Hn & _) & _ & Hdone).
  split.
  - exact (proj1 (Hdone eq_refl (str "o@acme.co") eq_refl)).
  - exists new. split; [exact Hl | exact Hn].
Defined.



Lemma continuation_published_witness :
  @transformed (sampleRuntime (sample_page (str "xyz"))) sample_request
    = Ok sample_batch /\
  search_after
    (@fetched (sampleRuntime (sample_page (str "xyz"))) sample_request)
    <> [] /\
  exists m,
    snd (@importLinksFromBitly (sampleRuntime (sample_page (str "xyz")))
           sample_request sample_world) = Ok (RetPublished m) /\
    Body.searchAfter (msg_body m) = str "xyz" /\
    Body.count (msg_body m) = 2%Z.
Proof.
  split; [reflexivity|]. split; [discriminate|].
  destruct (@continuation_published (sampleRuntime (sample_page (str "xyz")))
              sample_request sample_world sample_batch eq_refl
              ltac:(discriminate))
    as (m & Hret & _ & _ & _ & Hbody & _).
  exists m. split; [exact Hret|]. rewrite Hbody. split; reflexivity.
Defined.

(** C2, as the specification has it, fails: the message does not carry the
    API key or the tag mapping. Two invocations that differ in both publish
    the same message. *)
Lemma continuation_omits_key_and_tag_mapping :
  Req.bitlyApiKey sample_request <> Req.bitlyApiKey sample_request' /\
  Req.tagsToId sample_request <> Req.tagsToId sample_request' /\
  publishes
    (trace (fst (@importLinksFromBitly (sampleRuntime (sample_page (str "xyz")))
                   sample_request sample_world)))
  = publishes
      (trace (fst (@importLinksFromBitly
                     (sampleRuntime (sample_page (str "xyz")))
                     sample_request' sample_world))) /\
  length
    (publishes
       (trace (fst (@importLinksFromBitly
                      (sampleRuntime (sample_page (str "xyz")))
                      sample_request sample_world)))) = 1%nat.
Proof.
  split; [discriminate|]. split.
  - intros E.
    apply (f_equal (fun o => o ≫= (fun m : gmap (list N) (list N) =>
                                      m !! str "news"))) in E.
    vm_compute in E. discriminate.
  - split; vm_compute; reflexivity.
Qed.

End BitlyFacts.

(** ** The schemas *)
Module ZodFacts.
Import Zod.

(** *** Objects *)

Lemma parse_shape_is_Some sh fields :
  is_Some (parse_shape sh fields) <->
  Forall (fun ks => is_Some (snd ks (get fields (fst ks)))) sh.
Proof.
  induction sh as [|[k s] sh IH]; cbn [parse_shape].
  - split; [constructor | intros _; eexists; reflexivity].
  - rewrite Forall_cons. cbn [fst snd]. rewrite <- IH.
    destruct (s (get fields k)) as [v|], (parse_shape sh fields) as [out|].
    + split; [intros _; split; eexists; reflexivity
             | intros _; eexists; reflexivity].
    + split; [intros [x Hx]; discriminate | intros [_ [x Hx]]; discriminate].
    + split; [intros [x Hx]; discriminate | intros [[x Hx] _]; discriminate].
    + split; [intros [x Hx]; discriminate | intros [[x Hx] _]; discriminate].
Qed.

Lemma z_object_is_Some sh v :
  is_Some (z_object sh v) <->
  exists fields,
    v = VObj fields /\
    Forall (fun ks => is_Some (snd ks (get fields (fst ks)))) sh.
Proof.
  split.
  - destruct v; cbn [z_object]; try (intros [x Hx]; discriminate).
    intros Hs. exists fields. split; [reflexivity|].
    apply parse_shape_is_Some.
    destruct (parse_shape sh fields); [eexists; reflexivity|].
    destruct Hs as [x Hx]. discriminate.
  - intros (fields & -> & HF). apply parse_shape_is_Some in HF.
    destruct HF as [out Hout]. cbn [z_object]. rewrite Hout.
    eexists; reflexivity.
Qed.

(** *** The schemas of the fields *)

Lemma customerId_schema v :
  z_string [Trim; Min 1; Max 100] v =
  match v with
  | VStr s =>
      if (length (trim s) <? 1)%nat then None
      else if (100 <? length (trim s))%nat then None
      else Some (VStr (trim s))
  | _ => None
  end.
Proof.
  destruct v; try reflexivity. cbn [z_string string_checks].
  destruct (length (trim s) <? 1)%nat; [reflexivity|].
  destruct (100 <? length (trim s))%nat; reflexivity.
Qed.

Lemma customerId_is_Some v :
  is_Some (z_string [Trim; Min 1; Max 100] v) <-> trimmed_between 1 100 v.
Proof.
  rewrite customerId_schema. unfold trimmed_between. split.
  - destruct v; try (intros [x Hx]; discriminate).
    destruct (Nat.ltb_spec (length (trim s)) 1);
      [intros [x Hx]; discriminate|].
    destruct (Nat.ltb_spec 100 (length (trim s)));
      [intros [x Hx]; discriminate|].
    intros _. exists s. split; [reflexivity | lia].
  - intros (s & -> & Hlen).
    destruct (Nat.ltb_spec (length (trim s)) 1); [lia|].
    destruct (Nat.ltb_spec 100 (length (trim s))); [lia|].
    eexists; reflexivity.
Qed.

Lemma isInteger_spec n : isInteger n = true <-> exists k, is_integer n k.
Proof.
  destruct n as [s|s| |s m e]; cbn [isInteger is_integer].
  - split; [intros _; now exists 0%Z | reflexivity].
  - split; [discriminate | intros [k []]].
  - split; [discriminate | intros [k []]].
  - destruct (Z.leb_spec 0 e) as [He|He].
    + split; [intros _; eexists; reflexivity | reflexivity].
    + assert (Hp : (0 < 2 ^ (- e))%Z) by (apply Z.pow_pos_nonneg; lia).
      rewrite Z.eqb_eq. split.
      * intros Hm. apply Z.mod_divide in Hm; [|lia].
        destruct Hm as [q Hq]. exists (cond_Zopp s q).
        rewrite Hq. destruct s; cbn [cond_Zopp]; lia.
      * intros [k Hk]. apply Z.mod_divide; [lia|].
        exists (cond_Zopp s k).
        destruct s; cbn [cond_Zopp] in *; lia.
Qed.

Lemma amount_schema v :
  z_number [Int; Positive] v = Some v \/ z_number [Int; Positive] v = None.
Proof.
  destruct v; try (right; reflexivity).
  cbn [z_number]. destruct n; try (right; reflexivity);
    destruct (forallb _ _); (left; reflexivity) || (right; reflexivity).
Qed.

Lemma amount_is_Some v :
  is_Some (z_number [Int; Positive] v) <-> positive_integer v.
Proof.
  unfold positive_integer. split.
  - destruct v; try (intros [x Hx]; discriminate).
    cbn [z_number forallb number_check].
    destruct n as [s|s| |s m e];
      try (cbn; intros [x Hx]; discriminate).
    destruct (isInteger (S754_finite s m e)) eqn:Hi;
      [|intros [x Hx]; discriminate].
    destruct s; [cbn; intros [x Hx]; discriminate|].
    intros _. apply isInteger_spec in Hi as [k Hk].
    exists (S754_finite false m e), k.
    split; [reflexivity|]. split; [exact Hk|].
    cbn [is_integer cond_Zopp] in Hk.
    destruct (Z.leb_spec 0 e) as [He|He].
    + subst k. apply Z.mul_pos_pos; [lia|]. apply Z.pow_pos_nonneg; lia.
    + assert (Hp : (0 < 2 ^ (- e))%Z) by (apply Z.pow_pos_nonneg; lia).
      nia.
  - intros (n & k & -> & Hk & Hpos).
    cbn [z_number forallb number_check].
    destruct n as [s|s| |s m e]; cbn [is_integer] in Hk; try contradiction.
    + lia.
    + assert (Hi : isInteger (S754_finite s m e) = true)
        by (apply isInteger_spec; now exists k).
      rewrite Hi. cbn [andb].
      destruct s.
      * exfalso. cbn [cond_Zopp] in Hk.
        destruct (Z.leb_spec 0 e) as [He|He].
        -- assert (0 < 2 ^ e)%Z by (apply Z.pow_pos_nonneg; lia). nia.
        -- assert (0 < 2 ^ (- e))%Z by (apply Z.pow_pos_nonneg; lia). nia.
      * cbn. eexists; reflexivity.
Qed.

Lemma enum_is_Some values v :
  is_Some (z_enum values v) <-> one_of values v.
Proof.
  unfold one_of. split.
  - destruct v; try (intros [x Hx]; discriminate). cbn [z_enum].
    destruct (existsb _ values) eqn:He; [|intros [x Hx]; discriminate].
    intros _. exists s. split; [reflexivity|].
    apply existsb_exists in He as (y & Hy & E).
    apply bool_decide_eq_true in E. now subst.
  - intros (s & -> & Hin). cbn [z_enum].
    assert (He : existsb (fun x => bool_decide (x = s)) values = true).
    { apply existsb_exists. exists s. split; [exact Hin|].
      now apply bool_decide_eq_true. }
    rewrite He. eexists; reflexivity.
Qed.

Lemma enum_schema values v :
  one_of values v -> z_enum values v = Some v.
Proof.
  intros (s & -> & Hin). cbn [z_enum].
  assert (He : existsb (fun x => bool_decide (x = s)) values = true).
  { apply existsb_exists. exists s. split; [exact Hin|].
    now apply bool_decide_eq_true. }
  now rewrite He.
Qed.

Lemma eventName_is_Some v :
  is_Some (z_default (VStr (str "Purchase")) (z_optional (z_string [Max 50])) v)
  <-> v = VUndefined \/ string_upto 50 v.
Proof.
  unfold string_upto. split.
  - destruct v; try (cbn; intros [x Hx]; discriminate).
    + intros _. now left.
    + cbn [z_default z_optional z_string string_checks].
      destruct (Nat.ltb_spec 50 (length s)); [intros [x Hx]; discriminate|].
      intros _. right. exists s. split; [reflexivity | lia].
  - intros [->|(s & -> & Hlen)].
    + eexists; reflexivity.
    + cbn [z_default z_optional z_string string_checks].
      destruct (Nat.ltb_spec 50 (length s)); [lia|]. eexists; reflexivity.
Qed.

Lemma invoiceId_is_Some v :
  is_Some (z_default VNull (z_nullish (z_string [])) v)
  <-> v = VUndefined \/ v = VNull \/ is_string v.
Proof.
  unfold is_string. split.
  - destruct v; cbn; try (intros [x Hx]; discriminate); intros _.
    + now left.
    + right. now left.
    + right. right. now exists s.
  - intros [->|[->|(s & ->)]]; eexists; reflexivity.
Qed.

Lemma currency_is_Some v :
  is_Some (z_default (VStr (str "usd")) (z_string []) v)
  <-> v = VUndefined \/ is_string v.
Proof.
  unfold is_string. split.
  - destruct v; cbn; try (intros [x Hx]; discriminate); intros _.
    + now left.
    + right. now exists s.
  - intros [->|(s & ->)]; eexists; reflexivity.
Qed.

Lemma metadata_is_Some v :
  is_Some (z_default VNull (z_nullish z_record_unknown) v)
  <-> v = VUndefined \/ v = VNull \/ is_object v.
Proof.
  unfold is_object. split.
  - destruct v; cbn; try (intros [x Hx]; discriminate); intros _.
    + now left.
    + right. now left.
    + right. right. now exists fields.
  - intros [->|[->|(fields & ->)]]; eexists; reflexivity.
Qed.

Lemma trackSale_fields fields :
  is_Some (trackSaleRequestSchema (VObj fields)) <->
  required_ok fields /\ optional_ok fields.
Proof.
  unfold trackSaleRequestSchema. rewrite z_object_is_Some.
  unfold required_ok, optional_ok, trackSaleRequestShape.
  rewrite <- customerId_is_Some, <- amount_is_Some, <- enum_is_Some.
  rewrite <- eventName_is_Some, <- invoiceId_is_Some, <- currency_is_Some.
  rewrite <- metadata_is_Some.
  split.
  - intros (fields' & E & HF). inversion E; subst fields'. clear E.
    repeat (apply Forall_cons in HF as [? HF]). cbn [fst snd] in *.
    tauto.
  - intros [(H1 & H2 & H3) (H4 & H5 & H6 & H7)].
    exists fields. split; [reflexivity|].
    repeat (apply Forall_cons; split; [assumption|]). constructor.
Qed.



(** *** The response schema *)

Lemma lookup_key_filter_ne {A} k k' (fields : list (jsstring * A)) :
  k <> k' ->
  lookup_key k'
    (List.filter (fun kv => negb (bool_decide (fst kv = k))) fields)
  = lookup_key k' fields.
Proof.
  intros Hne. induction fields as [|[k0 v0] fields IH]; [reflexivity|].
  cbn [List.filter fst lookup_key].
  destruct (bool_decide_reflect (k0 = k)) as [E|E]; cbn [negb].
  - subst k0. rewrite bool_decide_eq_false_2 by exact Hne. exact IH.
  - cbn [lookup_key]. now rewrite IH.
Qed.

Lemma get_set_field_eq k v fields : get (set_field k v fields) k = v.
Proof.
  unfold get, set_field. cbn [lookup_key].
  now rewrite bool_decide_eq_true_2.
Qed.

Lemma get_set_field_ne k v fields k' :
  k <> k' -> get (set_field k v fields) k' = get fields k'.
Proof.
  intros Hne. unfold get, set_field. cbn [lookup_key].
  rewrite bool_decide_eq_false_2 by exact Hne.
  now rewrite lookup_key_filter_ne.
Qed.

Lemma has_key_false {A} k (fields : list (jsstring * A)) :
  has_key k fields = false -> lookup_key k fields = None.
Proof. unfold has_key. destruct (lookup_key k fields); [discriminate|auto]. Qed.

Lemma pick_sale :
  pick trackSaleRequestShape
    [str "amount"; str "invoiceId"; str "paymentProcessor"]
  = [ (str "amount", z_number [Int; Positive]);
      (str "invoiceId", z_default VNull (z_nullish (z_string [])));
      (str "paymentProcessor",
        z_enum [str "stripe"; str "shopify"; str "paddle"]) ].
Proof. reflexivity. Qed.

Lemma number_is_Some v : is_Some (z_number [] v) <-> is_number v.
Proof.
  unfold is_number. split.
  - destruct v; try (intros [x Hx]; discriminate).
    destruct n; try (intros [x Hx]; discriminate);
      intros _; eexists; (split; [reflexivity | discriminate]).
  - intros (n & -> & Hn). destruct n; try contradiction;
      eexists; reflexivity.
Qed.

Lemma string_is_Some v : is_Some (z_string [] v) <-> is_string v.
Proof.
  unfold is_string. split.
  - destruct v; try (intros [x Hx]; discriminate). intros _. now exists s.
  - intros (s & ->). eexists; reflexivity.
Qed.

Section ResponseFacts.
Variables linkEventSchema clickEventSchema customerSchema : Schema.
Variable commonDeprecatedEventFields : Shape.
Variable coerceString : value -> jsstring.

Local Abbreviation schema :=
  (saleEventResponseSchema linkEventSchema clickEventSchema customerSchema
     commonDeprecatedEventFields coerceString).

(** The imported deprecated fields do not redeclare [k]. *)
Local Abbreviation kept k := (has_key k commonDeprecatedEventFields = false).

Local Abbreviation own :=
  (saleEventFields linkEventSchema clickEventSchema customerSchema
     coerceString).

Lemma response_is_Some fields :
  kept (str "sale") -> kept (str "saleAmount") ->
  kept (str "invoice_id") -> kept (str "payment_processor") ->
  is_Some (schema (VObj fields)) <->
  (is_Some (default (z_literal (str "sale"))
              (lookup_key (str "event") commonDeprecatedEventFields)
              (get fields (str "event"))) /\
   is_Some (default (z_coerce_string coerceString)
              (lookup_key (str "timestamp") commonDeprecatedEventFields)
              (get fields (str "timestamp"))) /\
   is_Some (default (z_string [])
              (lookup_key (str "eventId") commonDeprecatedEventFields)
              (get fields (str "eventId"))) /\
   is_Some (default (z_string [])
              (lookup_key (str "eventName") commonDeprecatedEventFields)
              (get fields (str "eventName"))) /\
   is_Some (default linkEventSchema
              (lookup_key (str "link") commonDeprecatedEventFields)
              (get fields (str "link"))) /\
   is_Some (default clickEventSchema
              (lookup_key (str "click") commonDeprecatedEventFields)
              (get fields (str "click"))) /\
   is_Some (default customerSchema
              (lookup_key (str "customer") commonDeprecatedEventFields)
              (get fields (str "customer")))) /\
  (is_Some (z_object
              (pick trackSaleRequestShape
                 [str "amount"; str "invoiceId"; str "paymentProcessor"])
              (get fields (str "sale"))) /\
   is_number (get fields (str "saleAmount")) /\
   is_string (get fields (str "invoice_id")) /\
   is_string (get fields (str "payment_processor"))) /\
  Forall (fun ks => is_Some (snd ks (get fields (fst ks))))
    (List.filter (fun ks => negb (has_key (fst ks) own))
       commonDeprecatedEventFields).
Proof.
  intros Hs Ha Hi Hp. unfold schema, saleEventResponseSchema.
  rewrite z_object_is_Some. unfold saleEventResponseShape, merge.
  fold own. rewrite <- number_is_Some, <- !string_is_Some.
  split.
  - intros (fields' & E & HF). inversion E; subst fields'. clear E.
    apply Forall_app in HF as [HF Hrest].
    unfold own, saleEventFields in HF. cbn [map fst snd] in HF.
    rewrite (has_key_false _ _ Hs), (has_key_false _ _ Ha),
      (has_key_false _ _ Hi), (has_key_false _ _ Hp) in HF.
    cbn [default] in HF.
    repeat (apply Forall_cons in HF as [? HF]). cbn [fst snd] in *.
    tauto.
  - intros ((H1 & H2 & H3 & H4 & H5 & H6 & H7) & (H8 & H9 & H10 & H11)
            & Hrest).
    exists fields. split; [reflexivity|].
    apply Forall_app. split; [|exact Hrest].
    unfold own, saleEventFields. cbn [map fst snd].
    rewrite (has_key_false _ _ Hs), (has_key_false _ _ Ha),
      (has_key_false _ _ Hi), (has_key_false _ _ Hp).
    cbn [default].
    repeat (apply Forall_cons; split; [assumption|]). constructor.
Qed.

Lemma not_own k :
  has_key k own = false ->
  k <> str "saleAmount" /\ k <> str "invoice_id" /\
  k <> str "payment_processor".
Proof.
  intros Hk. repeat split; intros ->; vm_compute in Hk; discriminate.
Qed.

(** C1, as the code has it. The response schema checks every field on its
    own. In a value it accepts, [saleAmount] is a number, [invoice_id] and
    [payment_processor] are strings, [sale.amount] is a positive integer
    and [sale.paymentProcessor] one of the three processors; the
    deprecated fields are not compared with those of [sale], and the value
    is still accepted with any other number and strings in their place.
    (The deprecated fields imported from [./deprecated] are taken not to
    redeclare these four keys.) *)
Theorem response_fields_checked_separately
    (fields : list (jsstring * value)) (n : spec_float) (s1 s2 : jsstring) :
  kept (str "sale") -> kept (str "saleAmount") ->
  kept (str "invoice_id") -> kept (str "payment_processor") ->
  is_Some (schema (VObj fields)) ->
  n <> S754_nan ->
  (is_number (get fields (str "saleAmount")) /\
   is_string (get fields (str "invoice_id")) /\
   is_string (get fields (str "payment_processor")) /\
   positive_integer (field (get fields (str "sale")) (str "amount")) /\
   one_of [str "stripe"; str "shopify"; str "paddle"]
     (field (get fields (str "sale")) (str "paymentProcessor"))) /\
  is_Some
    (schema
       (VObj (set_field (str "saleAmount") (VNum n)
                (set_field (str "invoice_id") (VStr s1)
                   (set_field (str "payment_processor") (VStr s2)
                      fields))))).
Proof.
  intros Hs Ha Hi Hp Hacc Hn.
  apply (response_is_Some fields Hs Ha Hi Hp) in Hacc
    as (Hown & (Hsale & Hnum & Hinv & Hpay) & Hrest).
  split.
  - split; [exact Hnum|]. split; [exact Hinv|]. split; [exact Hpay|].
    rewrite pick_sale in Hsale.
    apply z_object_is_Some in Hsale as (sale & Esale & HF).
    rewrite Esale. cbn [field].
    repeat (apply Forall_cons in HF as [? HF]). cbn [fst snd] in *.
    split; [now apply amount_is_Some | now apply enum_is_Some].
  - apply (response_is_Some _ Hs Ha Hi Hp).
    assert (Hget : forall k,
      k <> str "saleAmount" -> k <> str "invoice_id" ->
      k <> str "payment_processor" ->
      get (set_field (str "saleAmount") (VNum n)
             (set_field (str "invoice_id") (VStr s1)
                (set_field (str "payment_processor") (VStr s2) fields))) k
      = get fields k).
    { intros k K1 K2 K3.
      rewrite !get_set_field_ne by congruence. reflexivity. }
    split; [|split].
    + rewrite !Hget by (vm_compute; discriminate). exact Hown.
    + rewrite Hget by (vm_compute; discriminate).
      split; [exact Hsale|].
      rewrite get_set_field_eq.
      rewrite get_set_field_ne by (vm_compute; discriminate).
      rewrite get_set_field_eq.
      rewrite !get_set_field_ne by (vm_compute; discriminate).
      rewrite get_set_field_eq.
      split; [now exists n|]. split; [now exists s1 | now exists s2].
    + apply List.Forall_forall. intros [k s] Hin.
      pose proof (proj1 (List.Forall_forall _ _) Hrest (k, s) Hin) as Hk.
      apply List.filter_In in Hin as [_ Hnot]. cbn [fst snd] in *.
      apply negb_true_iff, not_own in Hnot as (K1 & K2 & K3).
      now rewrite Hget.
Qed.

End ResponseFacts.

Lemma response_fields_checked_separately_witness :
  has_key (str "sale") (@nil (jsstring * Schema)) = false /\
  has_key (str "saleAmount") (@nil (jsstring * Schema)) = false /\
  has_key (str "invoice_id") (@nil (jsstring * Schema)) = false /\
  has_key (str "payment_processor") (@nil (jsstring * Schema)) = false /\
  is_Some (saleEventResponseSchema z_unknown z_unknown z_unknown []
             sample_coerceString sample_response) /\
  num 7 <> S754_nan /\
  is_number (field sample_response (str "saleAmount")).
Proof.
  split; [reflexivity|]. split; [reflexivity|]. split; [reflexivity|].
  split; [reflexivity|].
  assert (Hacc : is_Some (saleEventResponseSchema z_unknown z_unknown
                            z_unknown [] sample_coerceString
                            sample_response))
    by (eexists; vm_compute; reflexivity).
  split; [exact Hacc|]. split; [discriminate|].
  exact (proj1 (proj1 (response_fields_checked_separately
                         z_unknown z_unknown z_unknown []
                         sample_coerceString _ (num 7) [] []
                         eq_refl eq_refl eq_refl eq_refl Hacc
                         ltac:(discriminate)))).
Defined.

(** C1, as the specification has it, fails: the schema accepts a response
    whose [saleAmount], [invoice_id] and [payment_processor] differ from
    [sale.amount], [sale.invoiceId] and [sale.paymentProcessor]. The
    imported schemas are taken to accept the [link], [click] and [customer]
    of the sample; whatever they are, they see those fields only. *)
Lemma response_schema_accepts_mismatch :
  saleEventResponseSchema z_unknown z_unknown z_unknown []
    sample_coerceString sample_response = Some sample_response /\
  field sample_response (str "saleAmount")
    <> field (field sample_response (str "sale")) (str "amount") /\
  field sample_response (str "invoice_id")
    <> field (field sample_response (str "sale")) (str "invoiceId") /\
  field sample_response (str "payment_processor")
    <> field (field sample_response (str "sale")) (str "paymentProcessor").
Proof.
  split; [vm_compute; reflexivity|].
  repeat split; vm_compute; discriminate.
Qed.

End ZodFacts.

(** * Further properties *)

(** ** The string sanitizer *)
Module SanitizeMore.
Import Regex Sanitize SanitizeFacts.

Lemma exec_from_skip m (t s : jsstring) idx :
  exec_from m (length t) idx (t ++ s) = exec_from m 0 (idx + length t) s.
Proof.
  revert idx. induction t as [|c t IH]; intros idx.
  - cbn [length app]. now rewrite Nat.add_0_r.
  - cbn [length app exec_from]. rewrite IH. f_equal. lia.
Qed.

Lemma escapes_at_digits (t s : jsstring) idx :
  forallb is_hex t = true ->
  escapes_at idx (t ++ s) = escapes_at (idx + length t) s.
Proof.
  revert idx. induction t as [|c t IH]; intros idx Ht.
  - cbn [length app]. now rewrite Nat.add_0_r.
  - cbn [forallb] in Ht. apply andb_prop in Ht as [Hc Ht].
    change ((c :: t) ++ s) with (c :: (t ++ s)). cbn [escapes_at].
    rewrite (truncated_escape_not_backslash c (t ++ s)
               (is_hex_not_backslash c Hc)).
    rewrite (IH (S idx) Ht). cbn [length]. f_equal. lia.
Qed.

(** The [exec] loop finds the truncated escapes, each at its index. *)
Lemma exec_from_escapes_at s idx :
  exec_from problematicEscapeRegex 0 idx s = escapes_at idx s.
Proof.
  remember (length s) as n eqn:Hn.
  assert (Hle : (length s <= n)%nat) by lia. clear Hn.
  revert s idx Hle. induction n as [|n IH]; intros s idx Hle.
  - destruct s; [reflexivity | simpl in Hle; lia].
  - destruct s as [|b s']; [reflexivity|].
    cbn [exec_from escapes_at]. rewrite match_here_problematic.
    destruct (truncated_escape (b :: s')) eqn:Ht.
    + destruct s' as [|c r]; [discriminate|].
      cbn [truncated_escape] in Ht. apply andb_prop in Ht as [Hb Hc].
      change (take 2 (b :: c :: r)) with [b; c].
      change (drop 2 (b :: c :: r)) with r.
      change ([b; c] ++ take (hex_run r) r)
        with (b :: c :: take (hex_run r) r).
      cbn iota beta. f_equal.
      assert (Hcb : (c =? c_backslash)%N = false).
      { apply orb_prop in Hc as [Hc|Hc]; apply andb_prop in Hc as [Hc _];
          apply N.eqb_eq in Hc; subst c; reflexivity. }
      pose proof (hex_run_take_drop r) as Hr.
      pose proof (hex_run_prefix r) as Hp.
      assert (Hd : (length (drop (hex_run r) r) <= n)%nat)
        by (rewrite length_drop; simpl in Hle; lia).
      remember (take (hex_run r) r) as t eqn:Et.
      remember (drop (hex_run r) r) as d eqn:Ed.
      clear Et Ed Hc Hle. subst r.
      cbn [length exec_from escapes_at].
      rewrite exec_from_skip, (IH d _ Hd).
      rewrite (truncated_escape_not_backslash c (t ++ d) Hcb).
      now rewrite (escapes_at_digits t d _ Hp).
    + apply IH. simpl in Hle. lia.
Qed.

Lemma escapes_at_nil idx s :
  escapes_at idx s = [] <-> has_truncated_escape s = false.
Proof.
  revert idx. induction s as [|c s IH]; intros idx; [easy|].
  cbn [escapes_at has_truncated_escape].
  destruct (truncated_escape (c :: s)); cbn [orb]; [easy|]. apply IH.
Qed.

Lemma escapes_at_length_shift i j s :
  length (escapes_at i s) = length (escapes_at j s).
Proof.
  revert i j. induction s as [|c s IH]; intros i j; [reflexivity|].
  cbn [escapes_at]. destruct (truncated_escape (c :: s)); cbn [length];
    now rewrite (IH (S i) (S j)).
Qed.

Lemma double_truncated_adds s :
  length (double_truncated s) = (length s + length (escapes_at 0 s))%nat.
Proof.
  induction s as [|c s IH]; [reflexivity|].
  cbn [double_truncated escapes_at].
  destruct (truncated_escape (c :: s)); cbn [length]; rewrite IH;
    rewrite (escapes_at_length_shift 1 0 s); lia.
Qed.

Lemma sanitizeLog_escapes s : sanitizeLog s = escapes_at 0 s.
Proof.
  unfold sanitizeLog. rewrite test_has_truncated_escape, exec_from_escapes_at.
  destruct (has_truncated_escape s) eqn:Hh; [reflexivity|].
  symmetry. now apply escapes_at_nil.
Qed.

Lemma sanitizeString_str s :
  sanitizeString (SStr s) = SStr (double_truncated s).
Proof.
  destruct s as [|c s]; [reflexivity|].
  unfold sanitizeString, sanitizeTry. cbn [truthy negb].
  now rewrite replace_all_double_truncated.
Qed.

(** X1. [sanitizeString] returns a string other than its argument exactly
    when it logs a problematic escape, and the result is longer than the
    argument by one code unit for every match the loop logs. *)
Theorem sanitizeString_changes_when_logging (s : jsstring) :
  (sanitizeString (SStr s) = SStr s <-> sanitizeLog s = []) /\
  exists out,
    sanitizeString (SStr s) = SStr out /\
    length out = (length s + length (sanitizeLog s))%nat.
Proof.
  rewrite sanitizeString_str, sanitizeLog_escapes. split.
  - split.
    + intros E. injection E as E'.
      pose proof (double_truncated_adds s) as Hl. rewrite E' in Hl.
      destruct (escapes_at 0 s); [reflexivity | simpl in Hl; lia].
    + intros E. apply escapes_at_nil in E. now rewrite double_truncated_id.
  - eexists. split; [reflexivity | apply double_truncated_adds].
Qed.

Lemma without_backslashes_double_truncated s :
  without_backslashes (double_truncated s) = without_backslashes s.
Proof.
  unfold without_backslashes.
  induction s as [|c s IH]; [reflexivity|].
  cbn [double_truncated]. destruct (truncated_escape (c :: s)).
  - cbn [List.filter]. rewrite N.eqb_refl. cbn [negb].
    destruct (negb (c =? c_backslash)%N); now rewrite IH.
  - cbn [List.filter]. destruct (negb (c =? c_backslash)%N); now rewrite IH.
Qed.

(** X2. The sanitizer only adds backslashes: with the backslashes taken
    out, its result and its argument are the same string. *)
Theorem sanitizeString_only_adds_backslashes (s : jsstring) :
  exists out,
    sanitizeString (SStr s) = SStr out /\
    without_backslashes out = without_backslashes s.
Proof.
  rewrite sanitizeString_str. eexists. split; [reflexivity|].
  apply without_backslashes_double_truncated.
Qed.

Lemma escapes_at_cons idx c s :
  length (escapes_at idx (c :: s))
  = ((if truncated_escape (c :: s) then 1 else 0)
     + length (escapes_at 0 s))%nat.
Proof.
  cbn [escapes_at]. destruct (truncated_escape (c :: s)); cbn [length];
    now rewrite (escapes_at_length_shift (S idx) 0 s).
Qed.

Lemma truncated_escape_head c s :
  truncated_escape (c :: s) = true -> c = c_backslash.
Proof.
  destruct s as [|c2 r]; [discriminate|]. cbn [truncated_escape].
  intros Ht. apply andb_prop in Ht as [Hb _]. now apply N.eqb_eq in Hb.
Qed.

Lemma truncated_escape_before_backslash b t :
  truncated_escape (b :: c_backslash :: t) = false.
Proof. cbn [truncated_escape]. cbn. now rewrite !andb_false_r. Qed.

Lemma escapes_at_count_double_truncated s :
  length (escapes_at 0 (double_truncated s)) = length (escapes_at 0 s).
Proof.
  induction s as [|c s IH]; [reflexivity|].
  cbn [double_truncated]. rewrite (escapes_at_cons 0 c s).
  destruct (truncated_escape (c :: s)) eqn:Ht.
  - rewrite (truncated_escape_head c s Ht).
    rewrite !escapes_at_cons, truncated_escape_before_backslash.
    rewrite truncated_escape_double_truncated.
    rewrite <- (truncated_escape_head c s Ht), Ht, IH. reflexivity.
  - rewrite escapes_at_cons, truncated_escape_double_truncated, Ht, IH.
    reflexivity.
Qed.

Lemma sanitizeTimes_str n s :
  exists out,
    sanitizeTimes n (SStr s) = SStr out /\
    length (escapes_at 0 out) = length (escapes_at 0 s) /\
    length out = (length s + n * length (escapes_at 0 s))%nat.
Proof.
  induction n as [|n (out & E & Hc & Hl)].
  - exists s. repeat split; cbn; lia.
  - exists (double_truncated out). cbn [sanitizeTimes].
    rewrite E, sanitizeString_str. split; [reflexivity|].
    rewrite escapes_at_count_double_truncated, double_truncated_adds.
    split; [exact Hc | rewrite Hc, Hl; cbn; lia].
Qed.

(** X3. Sanitizing is not idempotent. A sanitized string has as many
    matches as the string it was made of, so every further pass adds that
    many backslashes again: after [n] passes the string is longer by [n]
    times the number of matches. *)
Theorem sanitizeString_repeated (n : nat) (s : jsstring) :
  exists out,
    sanitizeTimes n (SStr s) = SStr out /\
    length (sanitizeLog out) = length (sanitizeLog s) /\
    length out = (length s + n * length (sanitizeLog s))%nat.
Proof.
  destruct (sanitizeTimes_str n s) as (out & E & Hc & Hl).
  exists out. rewrite !sanitizeLog_escapes. auto.
Qed.

Lemma escapes_at_logged idx s :
  Forall (fun e => (idx <= fst e)%nat /\
                   logged_match s (fst e - idx, snd e))
    (escapes_at idx s).
Proof.
  revert idx. induction s as [|b s IH]; intros idx; [constructor|].
  cbn [escapes_at].
  assert (Htail : Forall (fun e => (idx <= fst e)%nat /\
                                   logged_match (b :: s) (fst e - idx, snd e))
                    (escapes_at (S idx) s)).
  { eapply Forall_impl; [apply (IH (S idx))|].
    intros [j t]. cbn [fst snd]. intros [Hj (Ht & Hrest)].
    split; [lia|]. split; [|exact Hrest]. cbn [fst snd] in *.
    replace (j - idx)%nat with (S (j - S idx)) by lia. exact Ht. }
  destruct (truncated_escape (b :: s)) eqn:Ht; [|exact Htail].
  constructor; [|exact Htail]. cbn [fst snd]. split; [lia|].
  destruct s as [|c r]; [discriminate|].
  cbn [truncated_escape] in Ht. apply andb_prop in Ht as [Hb Hc].
  apply N.eqb_eq in Hb. subst b.
  change (take 2 (c_backslash :: c :: r)) with [c_backslash; c].
  change (drop 2 (c_backslash :: c :: r)) with r.
  change ([c_backslash; c] ++ take (hex_run r) r)
    with (c_backslash :: c :: take (hex_run r) r).
  assert (Hlen : length (take (hex_run r) r) = hex_run r).
  { rewrite length_take. pose proof (hex_run_le r). lia. }
  unfold logged_match. cbn [fst snd length]. rewrite Hlen, Nat.sub_diag.
  split; [reflexivity|]. split.
  - apply orb_prop in Hc as [Hc|Hc]; apply andb_prop in Hc as [_ Hh];
      apply Nat.ltb_lt in Hh; lia.
  - exists c, (take (hex_run r) r). split; [reflexivity|].
    split; [|apply hex_run_prefix].
    apply orb_prop in Hc as [Hc|Hc]; apply andb_prop in Hc as [Hc _];
      apply N.eqb_eq in Hc; auto.
Qed.

Lemma apart_le from from' l :
  (from' <= from)%nat -> apart from l -> apart from' l.
Proof.
  destruct l as [|e l]; [easy|]. cbn [apart]. intros Hle [H1 H2].
  split; [lia | exact H2].
Qed.

Lemma escapes_at_apart idx s : apart idx (escapes_at idx s).
Proof.
  remember (length s) as n eqn:Hn.
  assert (Hle : (length s <= n)%nat) by lia. clear Hn.
  revert s idx Hle. induction n as [|n IH]; intros s idx Hle.
  - destruct s; [exact I | simpl in Hle; lia].
  - destruct s as [|b s']; [exact I|].
    cbn [escapes_at].
    destruct (truncated_escape (b :: s')) eqn:Ht.
    + destruct s' as [|c r]; [discriminate|].
      cbn [truncated_escape] in Ht. apply andb_prop in Ht as [Hb Hc].
      change (take 2 (b :: c :: r)) with [b; c].
      change (drop 2 (b :: c :: r)) with r.
      change ([b; c] ++ take (hex_run r) r)
        with (b :: c :: take (hex_run r) r).
      assert (Hcb : (c =? c_backslash)%N = false).
      { apply orb_prop in Hc as [Hc|Hc]; apply andb_prop in Hc as [Hc _];
          apply N.eqb_eq in Hc; subst c; reflexivity. }
      pose proof (hex_run_take_drop r) as Hr.
      pose proof (hex_run_prefix r) as Hp.
      assert (Hd : (length (drop (hex_run r) r) <= n)%nat)
        by (rewrite length_drop; simpl in Hle; lia).
      remember (take (hex_run r) r) as t eqn:Et.
      remember (drop (hex_run r) r) as d eqn:Ed.
      clear Et Ed Hc Hle. subst r.
      cbn [apart fst snd length]. split; [lia|].
      cbn [escapes_at].
      rewrite (truncated_escape_not_backslash c (t ++ d) Hcb).
      rewrite (escapes_at_digits t d _ Hp).
      replace (idx + S (S (length t)))%nat with (S (S idx) + length t)%nat
        by lia.
      apply (IH d _ Hd).
    + apply (apart_le (S idx)); [lia|]. apply IH. simpl in Hle. lia.
Qed.

(** X4. Every pair the loop logs names a match of the string: at the
    logged index the string has the logged text, which is a backslash, [u]
    or [x], and hex digits, between two and five code units in all. The
    pairs are logged in the order of their indices, and no match overlaps
    the next. *)
Theorem sanitizeLog_matches (s : jsstring) :
  Forall (logged_match s) (sanitizeLog s) /\ apart 0 (sanitizeLog s).
Proof.
  rewrite sanitizeLog_escapes. split; [|apply escapes_at_apart].
  eapply Forall_impl; [apply (escapes_at_logged 0 s)|].
  intros [j t]. cbn [fst snd]. intros [_ Hm].
  now rewrite Nat.sub_0_r in Hm.
Qed.

Lemma sanitizeCatch_reader s :
  has_unescaped_truncated false (sanitizeCatch s) = false.
Proof.
  unfold sanitizeCatch. induction s as [|c s IH]; [reflexivity|].
  cbn [flat_map]. destruct (c =? c_backslash)%N eqn:Hc.
  - cbn [app has_unescaped_truncated]. rewrite N.eqb_refl.
    rewrite truncated_escape_before_backslash. exact IH.
  - cbn [app has_unescaped_truncated]. rewrite Hc. exact IH.
Qed.

(** X5. The fallback of the [catch] block doubles every backslash and
    changes nothing else: its result is longer by the number of
    backslashes, is the same string once the backslashes are taken out,
    and holds no truncated escape for a reader that takes a doubled
    backslash as an escaped one. *)
Theorem sanitizeCatch_doubles_every_backslash (s : jsstring) :
  length (sanitizeCatch s)
  = (length s + length (List.filter (fun c => (c =? c_backslash)%N) s))%nat /\
  without_backslashes (sanitizeCatch s) = without_backslashes s /\
  has_unescaped_truncated false (sanitizeCatch s) = false.
Proof.
  split; [|split; [|apply sanitizeCatch_reader]].
  - unfold sanitizeCatch. induction s as [|c s IH]; [reflexivity|].
    cbn [flat_map List.filter]. rewrite length_app, IH.
    destruct (c =? c_backslash)%N; cbn [length]; lia.
  - unfold sanitizeCatch, without_backslashes.
    induction s as [|c s IH]; [reflexivity|].
    cbn [flat_map]. rewrite List.filter_app, IH. cbn [List.filter].
    destruct (c =? c_backslash)%N eqn:Hc.
    + cbn [List.filter]. rewrite N.eqb_refl. reflexivity.
    + cbn [List.filter]. rewrite Hc. reflexivity.
Qed.

End SanitizeMore.

(** ** The Bitly importer *)
Module BitlyMore.
Import Sanitize Bitly BitlyFacts.

Ltac calls :=
  unfold bulkInserts, publishes, redisDels, tagDeletes, emailsSent;
  rewrite ?flat_map_app; cbn [flat_map app]; rewrite ?app_nil_r.

Ltac decide_outcome :=
  repeat match goal with
         | H : ex _ |- _ => destruct H
         | H : _ /\ _ |- _ => destruct H
         end;
  try discriminate; eauto.

Section More.
Context `{Runtime}.

(** *** The transform *)

Lemma convertLink_guards_false r l :
  passes_guards r l = false -> convertLink r l = Ok [].
Proof.
  unfold passes_guards, convertLink, convert. intros Hg.
  destruct (truthy (Ext.id l)); [|reflexivity].
  destruct (truthy (Ext.long_url l)); [|reflexivity].
  cbn [andb negb orb] in *. now rewrite Hg.
Qed.

Lemma convert_guards_true r l :
  passes_guards r l = true ->
  convert r l =
  match toISOString (Ext.created_at l) with
  | None => Throw RangeError
  | Some createdAt =>
      let domain := hd [] (split c_slash (or_default (Ext.id l) [])) in
      let key := split c_slash (or_default (Ext.id l) []) !! 1%nat in
      let linkDetails :=
        Link.mk (Req.workspaceId r) (Req.userId r) domain key
          (or_default (sanitizeString (Ext.long_url l)) [])
          (linkConstructorSimple domain key)
          (sanitizeString (Ext.title l)) (Ext.archived l) createdAt
          match Req.tagsToId r with
          | Some m => map (fun tag : jsstring => m !! tag) (Ext.tags l)
          | None => []
          end
          (Req.folderId r) in
      Ok (Emit
            (linkDetails ::
             match Ext.custom_bitlinks l with
             | Some cbs =>
                 filter_Boolean
                   (map (customLink linkDetails)
                      (List.filter (keepCustomBitlink (Req.domains r)) cbs))
             | None => []
             end))
  end.
Proof.
  unfold passes_guards. intros Hg.
  apply andb_prop in Hg as [Hg Hd]. apply andb_prop in Hg as [Hi Hu].
  unfold convert. rewrite Hi, Hu, Hd. cbn [negb orb].
  rewrite bool_decide_eq_false_2 by (apply sanitized_url_nonempty, Hu).
  reflexivity.
Qed.

Lemma convertLink_cases r l :
  (passes_guards r l = false /\ convertLink r l = Ok []) \/
  (invalid_date r l /\ convertLink r l = Throw RangeError) \/
  (passes_guards r l = true /\
   exists d ls, toISOString (Ext.created_at l) = Some d /\
                convertLink r l = Ok ls).
Proof.
  destruct (passes_guards r l) eqn:Hg.
  - right. unfold convertLink, invalid_date.
    rewrite (convert_guards_true r l Hg).
    destruct (toISOString (Ext.created_at l)) as [d|].
    + right. split; [reflexivity|]. eexists. eexists.
      split; reflexivity.
    + left. auto.
  - left. split; [reflexivity | now apply convertLink_guards_false].
Qed.

Lemma flatMapM_convert_throws r (page : list Ext.t) :
  (exists e, flatMapM (convertLink r) page = Throw e) <->
  Exists (invalid_date r) page.
Proof.
  induction page as [|l page IH]; cbn [flatMapM].
  - split; [intros [e He]; discriminate | intros Hx; inversion Hx].
  - rewrite Exists_cons.
    destruct (convertLink_cases r l)
      as [(Hg & ->)|[(Hi & ->)|(Hg & d & ls & Hd & ->)]].
    + destruct (flatMapM (convertLink r) page) as [zs|e'] eqn:Hrest.
      * split; [intros [e He]; discriminate|].
        intros [[Hg' _]|Hx]; [congruence|].
        apply IH in Hx as [e He]. discriminate.
      * split; [intros _; right; apply IH; now exists e'|].
        intros _. now exists e'.
    + split; [intros _; now left | intros _; now exists RangeError].
    + destruct (flatMapM (convertLink r) page) as [zs|e'] eqn:Hrest.
      * split; [intros [e He]; discriminate|].
        intros [[_ Hn]|Hx]; [congruence|].
        apply IH in Hx as [e He]. discriminate.
      * split; [intros _; right; apply IH; now exists e'|].
        intros _. now exists e'.
Qed.

Lemma flatMapM_convert_error r (page : list Ext.t) e :
  flatMapM (convertLink r) page = Throw e -> e = RangeError.
Proof.
  induction page as [|l page IH]; cbn [flatMapM]; [discriminate|].
  destruct (convertLink_cases r l)
    as [(Hg & ->)|[(Hi & ->)|(Hg & d & ls & Hd & ->)]].
  - destruct (flatMapM (convertLink r) page); [discriminate|].
    intros E. inversion E; subst. now apply IH.
  - intros E. now inversion E.
  - destruct (flatMapM (convertLink r) page); [discriminate|].
    intros E. inversion E; subst. now apply IH.
Qed.

(** X6. The transform throws exactly when some link of the page that has
    an id and a URL on a domain of the workspace has a [created_at] that is
    not a date, and what it throws is the [RangeError] of [toISOString].
    The invocation then ends with that error after the fetch alone:
    nothing is looked up, inserted, deleted, sent or published. *)
Theorem invalid_date_aborts_before_persistence (r : Req.t) (w : World) :
  ((exists e, transformed r = Throw e) <->
   Exists (invalid_date r) (page_links (fetched r))) /\
  (Exists (invalid_date r) (page_links (fetched r)) ->
   importLinksFromBitly r w =
   (call (CFetch (bitlinksUrl r) (str "Bearer " ++ Req.bitlyApiKey r)) w,
    Throw RangeError)).
Proof.
  split; [apply flatMapM_convert_throws|].
  intros Hx. apply flatMapM_convert_throws in Hx as [e He].
  pose proof (flatMapM_convert_error _ _ _ He) as ->.
  now apply import_aborts.
Qed.

Lemma flatMapM_all_skipped r (page : list Ext.t) :
  Forall (fun l => passes_guards r l = false) page ->
  flatMapM (convertLink r) page = Ok [].
Proof.
  induction 1 as [|l page Hl _ IH]; [reflexivity|].
  cbn [flatMapM]. now rewrite (convertLink_guards_false r l Hl), IH.
Qed.

(** X7. A page on which every link lacks an id or a URL, or has a domain
    that is not one of the workspace's, gives no link at all and no
    exception, whatever else the links hold: the bulk insert is called
    with the empty list and persistence keeps its links. *)
Theorem skipped_page_inserts_nothing (r : Req.t) (w : World) :
  Forall (fun l => passes_guards r l = false) (page_links (fetched r)) ->
  transformed r = Ok [] /\
  bulkInserts (trace (fst (importLinksFromBitly r w)))
    = bulkInserts (trace w) ++ [[]] /\
  links (fst (importLinksFromBitly r w)) = links w.
Proof.
  intros Hs. pose proof (flatMapM_all_skipped r _ Hs) as Ht.
  fold (transformed r) in Ht. split; [exact Ht|]. split.
  - now rewrite (bulkInserts_import r w [] Ht).
  - destruct (import_links_trace r w [] Ht) as (Hl & _). rewrite Hl.
    cbn [persisted links List.filter]. apply app_nil_r.
Qed.

Lemma customLink_belongs r primary cbs :
  belongs_to r primary ->
  Forall (belongs_to r)
    (filter_Boolean
       (map (customLink primary)
          (List.filter (keepCustomBitlink (Req.domains r)) cbs))).
Proof.
  intros (Hp & Hu & Hf & _ & Hurl).
  induction cbs as [|cb cbs IH]; [constructor|].
  cbn [List.filter]. destruct (keepCustomBitlink (Req.domains r) cb) eqn:Hk;
    [|exact IH].
  unfold keepCustomBitlink in Hk. cbn [map]. unfold filter_Boolean.
  cbn [flat_map]. unfold customLink at 1.
  destruct (parseURL cb) as [u|]; [|discriminate].
  cbn [app]. constructor; [|exact IH].
  unfold belongs_to. cbn. repeat split; try assumption.
  now apply includes_In.
Qed.

Lemma convertLink_belongs r l ls :
  convertLink r l = Ok ls -> Forall (belongs_to r) ls.
Proof.
  destruct (passes_guards r l) eqn:Hg.
  - unfold convertLink. rewrite (convert_guards_true r l Hg).
    destruct (toISOString (Ext.created_at l)) as [d|]; [|discriminate].
    cbv zeta. cbn [emitted]. intros E. inversion E; subst ls. clear E.
    unfold passes_guards in Hg.
    apply andb_prop in Hg as [Hg Hd]. apply andb_prop in Hg as [Hi Hu].
    match goal with
    | |- Forall _ (?p :: _) =>
        assert (Hp : belongs_to r p)
    end.
    { unfold belongs_to. cbn. repeat split.
      - now apply includes_In.
      - now apply sanitized_url_nonempty. }
    constructor; [exact Hp|].
    destruct (Ext.custom_bitlinks l) as [cbs|]; [|constructor].
    now apply customLink_belongs.
  - rewrite (convertLink_guards_false r l Hg). intros E.
    inversion E. constructor.
Qed.

(** X8. Every link the transform makes belongs to the request: it has the
    workspace id, the user id and the folder id of the request, a domain
    that is one of the request's domains, and a URL that is not empty. *)
Theorem transformed_links_belong (r : Req.t) (batch : list Link.t) :
  transformed r = Ok batch -> Forall (belongs_to r) batch.
Proof.
  unfold transformed. generalize (page_links (fetched r)). intros page.
  revert batch. induction page as [|l page IH]; intros batch; cbn [flatMapM].
  - intros E. inversion E. constructor.
  - destruct (convertLink r l) as [ys|e] eqn:Hl; [|discriminate].
    destruct (flatMapM (convertLink r) page) as [zs|e]; [|discriminate].
    intros E. inversion E; subst batch. apply Forall_app. split.
    + now apply (convertLink_belongs r l).
    + now apply IH.
Qed.

(** *** The outcomes of an invocation *)

(** An invocation ends in one of four ways. *)
Lemma import_outcomes r w :
  (exists e,
      transformed r = Throw e /\
      importLinksFromBitly r w =
      (call (CFetch (bitlinksUrl r) (str "Bearer " ++ Req.bitlyApiKey r)) w,
       Throw e)) \/
  (exists batch,
      transformed r = Ok batch /\
      ((search_after (fetched r) <> [] /\
        importLinksFromBitly r w =
        (continued r batch w,
         Ok (RetPublished
               (continuation r (search_after (fetched r))
                  (newCount r batch))))) \/
       (search_after (fetched r) = [] /\
        exists owner,
          ownerEmailOf
            (selectWorkspace w (Req.workspaceId r) (Req.domains r))
            = Ok owner /\
          importLinksFromBitly r w =
          (finalized r batch w owner, Ok (RetCount (newCount r batch)))) \/
       (search_after (fetched r) = [] /\
        exists e,
          ownerEmailOf
            (selectWorkspace w (Req.workspaceId r) (Req.domains r))
            = Throw e /\
          importLinksFromBitly r w =
          (call (CProjectFindUnique (Req.workspaceId r) (Req.domains r))
             (persisted r batch w), Throw e)))).
Proof.
  destruct (transformed r) as [batch|e] eqn:Ht.
  - right. exists batch. split; [reflexivity|].
    destruct (decide (search_after (fetched r) = [])) as [Hc|Hc].
    + right.
      destruct (ownerEmailOf
                  (selectWorkspace w (Req.workspaceId r) (Req.domains r)))
        as [owner|e] eqn:Ho.
      * left. split; [exact Hc|]. exists owner. split; [reflexivity|].
        now apply import_completes.
      * right. split; [exact Hc|]. exists e. split; [reflexivity|].
        now apply import_fails_without_owner.
    + left. split; [exact Hc|]. now apply import_continues.
  - left. exists e. split; [reflexivity|]. now apply import_aborts.
Qed.

Lemma tag_has_link_app ls new t :
  tag_has_link ls t = true -> tag_has_link (ls ++ new) t = true.
Proof.
  unfold tag_has_link. rewrite existsb_app. intros ->. reflexivity.
Qed.

(** X9. However an invocation ends, it leaves the workspaces as they are,
    removes no link (the links it inserts come after those there), removes
    no tag of another workspace and no tag that a link carries, adds no
    tag, adds no key, and removes no key but the two flags of the
    workspace. *)
Theorem import_frame (r : Req.t) (w : World) :
  let w' := fst (importLinksFromBitly r w) in
  projects w' = projects w /\
  (exists new, links w' = links w ++ new) /\
  (forall t, In t (tags w') -> In t (tags w)) /\
  (forall t, In t (tags w) ->
             tag_projectId t <> Req.workspaceId r \/
             tag_has_link (links w) t = true ->
             In t (tags w')) /\
  (forall k, k ∈ redis w' -> k ∈ redis w) /\
  (forall k, k ∈ redis w ->
             k <> str "import:bitly:" ++ Req.workspaceId r ->
             k <> str "import:bitly:" ++ Req.workspaceId r ++ str ":tags" ->
             k ∈ redis w').
Proof.
  destruct (import_outcomes r w)
    as [(e & _ & ->)
       |(batch & _ & [(_ & ->)|[(_ & owner & _ & ->)|(_ & e & _ & ->)]])];
    cbn [fst].
  - repeat split; auto. exists []. cbn. now rewrite app_nil_r.
  - repeat split; auto. eexists. reflexivity.
  - unfold finalized. cbn [projects links tags redis persisted].
    split; [reflexivity|]. split; [eexists; reflexivity|].
    split; [|split; [|split]].
    + intros t Ht. now apply List.filter_In in Ht as [Ht _].
    + intros t Ht Hkeep. apply List.filter_In. split; [exact Ht|].
      apply negb_true_iff, andb_false_iff. destruct Hkeep as [Hp|Hl].
      * left. now apply bool_decide_eq_false.
      * right. apply negb_false_iff. now apply tag_has_link_app.
    + intros k. unfold flagKey, tagsFlagKey.
      rewrite !elem_of_difference. tauto.
    + intros k Hk K1 K2. unfold flagKey, tagsFlagKey.
      rewrite !elem_of_difference, !elem_of_singleton. tauto.
  - repeat split; auto. eexists. reflexivity.
Qed.

(** X10. An invocation calls the queue at most once and the mailer at most
    once, and never both. When it returns the answer of the queue it has
    published that one message and sent no email; when it returns a count
    it has sent one email, with that count, and published nothing; and when
    the importer's own code throws, the [RangeError] of a date or the
    [TypeError] of the owner lookup, it has called neither. *)
Theorem import_publishes_or_notifies (r : Req.t) (w : World) :
  let w' := fst (importLinksFromBitly r w) in
  let res := snd (importLinksFromBitly r w) in
  exists ms es,
    publishes (trace w') = publishes (trace w) ++ ms /\
    emailsSent (trace w') = emailsSent (trace w) ++ es /\
    (length ms + length es <= 1)%nat /\
    (forall m, res = Ok (RetPublished m) -> ms = [m] /\ es = []) /\
    (forall n, res = Ok (RetCount n) ->
               ms = [] /\ exists e, es = [e] /\ email_count e = n) /\
    (forall e, res = Throw e -> ms = [] /\ es = []).
Proof.
  cbv zeta.
  destruct (import_outcomes r w)
    as [(e & _ & ->)
       |(batch & _ & [(_ & ->)|[(_ & owner & _ & ->)|(_ & e & _ & ->)]])];
    cbn [fst snd];
    try destruct (persisted_calls r batch w) as (_ & Ep & _ & _ & Ee);
    try unfold publishes, emailsSent in Ep, Ee.
  - exists [], []. unfold call. cbn [trace]. calls.
    rewrite ?app_nil_r. repeat (split; [reflexivity || (cbn; lia)|]).
    repeat split; intros; decide_outcome.
  - eexists [_], []. unfold continued. cbn [trace].
    calls. rewrite Ep, Ee.
    rewrite ?app_nil_r. repeat (split; [reflexivity || (cbn; lia)|]).
    split; [intros m E; inversion E; now split|].
    split; intros; discriminate.
  - eexists [], [_]. unfold finalized. cbn [trace].
    calls. rewrite Ep, Ee.
    rewrite ?app_nil_r. repeat (split; [reflexivity || (cbn; lia)|]).
    split; [intros; discriminate|].
    split; [|intros; discriminate].
    intros n E. inversion E. split; [reflexivity|].
    eexists. split; reflexivity.
  - exists [], []. unfold call. cbn [trace]. calls.
    rewrite Ep, Ee.
    rewrite ?app_nil_r. repeat (split; [reflexivity || (cbn; lia)|]).
    repeat split; intros; decide_outcome.
Qed.

(** X11. The calls of an invocation that does not throw, in order: the
    fetch, the lookup of the short links of the batch, the bulk insert, the
    pause of 500 ms, and then either the one publish, or the lookup of the
    workspace, the two key deletions, the tag cleanup and the email. *)
Theorem import_call_order (r : Req.t) (w : World) (batch : list Link.t) :
  transformed r = Ok batch ->
  let w' := fst (importLinksFromBitly r w) in
  let before :=
    [CFetch (bitlinksUrl r) (str "Bearer " ++ Req.bitlyApiKey r);
     CLinkFindMany (map Link.shortLink batch);
     CBulkCreateLinks
       (List.filter (fun l => negb (present w (Link.shortLink l))) batch);
     CSleep 500] in
  (search_after (fetched r) <> [] ->
   exists m, trace w' = trace w ++ before ++ [CPublishJSON m]) /\
  (search_after (fetched r) = [] ->
   forall owner,
     ownerEmailOf (selectWorkspace w (Req.workspaceId r) (Req.domains r))
       = Ok owner ->
     exists e,
       trace w' = trace w ++ before ++
         [CProjectFindUnique (Req.workspaceId r) (Req.domains r);
          CRedisDel (str "import:bitly:" ++ Req.workspaceId r);
          CRedisDel (str "import:bitly:" ++ Req.workspaceId r ++ str ":tags");
          CTagDeleteMany (Req.workspaceId r);
          CSendEmail e]).
Proof.
  intros Ht w' before. unfold w'. split.
  - intros Hc. rewrite (import_continues r w batch Ht Hc). cbn [fst].
    eexists. unfold continued, persisted. cbn [trace].
    rewrite <- !app_assoc. reflexivity.
  - intros Hc owner Ho.
    rewrite (import_completes r w batch owner Ht Hc Ho). cbn [fst].
    eexists. unfold finalized. cbn [trace]. unfold persisted at 1.
    cbn [trace]. rewrite <- !app_assoc. reflexivity.
Qed.

Lemma ownerEmailOf_firstOwner r w :
  ownerEmailOf (selectWorkspace w (Req.workspaceId r) (Req.domains r)) =
  match workspaceOf w r with
  | None => Ok []
  | Some _ =>
      match firstOwner w r with
      | Some u => Ok (default [] (user_email u))
      | None => Throw TypeError
      end
  end.
Proof.
  unfold selectWorkspace, workspaceOf, firstOwner.
  destruct (List.find _ (projects w)) as [p|]; [|reflexivity].
  cbn [ownerEmailOf ws_users].
  destruct (List.filter _ (project_users p)); reflexivity.
Qed.

(** X12. When the last page has been persisted and the workspace has no
    user with the role [owner], the invocation throws a [TypeError] right
    after looking the workspace up: the links of the page are inserted,
    but no key and no tag is deleted, no email is sent and nothing is
    published. *)
Theorem import_throws_without_owner (r : Req.t) (w : World)
    (batch : list Link.t) (p : Project) :
  transformed r = Ok batch ->
  search_after (fetched r) = [] ->
  workspaceOf w r = Some p ->
  firstOwner w r = None ->
  let w' := fst (importLinksFromBitly r w) in
  snd (importLinksFromBitly r w) = Throw TypeError /\
  links w' =
    links w
    ++ List.filter (fun l => negb (present w (Link.shortLink l))) batch /\
  redis w' = redis w /\ tags w' = tags w /\
  outbox w' = outbox w /\ queue w' = queue w /\
  redisDels (trace w') = redisDels (trace w) /\
  tagDeletes (trace w') = tagDeletes (trace w) /\
  emailsSent (trace w') = emailsSent (trace w) /\
  publishes (trace w') = publishes (trace w).
Proof.
  intros Ht Hc Hp Ho w'. unfold w'.
  assert (He : ownerEmailOf
                 (selectWorkspace w (Req.workspaceId r) (Req.domains r))
               = Throw TypeError)
    by (rewrite ownerEmailOf_firstOwner, Hp, Ho; reflexivity).
  rewrite (import_fails_without_owner r w batch TypeError Ht Hc He).
  cbn [fst snd].
  destruct (persisted_calls r batch w) as (_ & Ep & Er & Et & Ee).
  unfold publishes, redisDels, tagDeletes, emailsSent in Ep, Er, Et, Ee.
  unfold call. cbn [links redis tags outbox queue trace]. calls.
  rewrite Ep, Er, Et, Ee. repeat split; reflexivity.
Qed.

(** X13. When the workspace of the request is not found, the completion
    still runs: the two keys and the unused tags are deleted and the count
    is returned, and the email is sent to the empty address, with an empty
    workspace name and slug and no sample links. *)
Theorem import_completes_without_workspace (r : Req.t) (w : World)
    (batch : list Link.t) :
  transformed r = Ok batch ->
  search_after (fetched r) = [] ->
  workspaceOf w r = None ->
  let w' := fst (importLinksFromBitly r w) in
  snd (importLinksFromBitly r w)
    = Ok (RetCount (Req.count r + Z.of_nat (length batch))) /\
  redisDels (trace w')
    = redisDels (trace w)
      ++ [str "import:bitly:" ++ Req.workspaceId r;
          str "import:bitly:" ++ Req.workspaceId r ++ str ":tags"] /\
  tagDeletes (trace w') = tagDeletes (trace w) ++ [Req.workspaceId r] /\
  exists e,
    outbox w' = outbox w ++ [e] /\
    email e = [] /\ workspaceName e = [] /\ workspaceSlug e = [] /\
    email_links e = [] /\
    email_count e = (Req.count r + Z.of_nat (length batch))%Z /\
    email_domains e = Req.domains r.
Proof.
  intros Ht Hc Hp w'. unfold w'.
  assert (Ho : ownerEmailOf
                 (selectWorkspace w (Req.workspaceId r) (Req.domains r))
               = Ok [])
    by (rewrite ownerEmailOf_firstOwner, Hp; reflexivity).
  rewrite (import_completes r w batch [] Ht Hc Ho). cbn [fst snd].
  destruct (persisted_calls r batch w) as (_ & Ep & Er & Et & Ee).
  unfold publishes, redisDels, tagDeletes, emailsSent in Ep, Er, Et, Ee.
  split; [reflexivity|].
  split; [unfold finalized; cbn [trace]; calls; now rewrite Er|].
  split; [unfold finalized; cbn [trace]; calls; now rewrite Et|].
  eexists. split; [reflexivity|].
  unfold completionEmail, selectWorkspace. cbn [projects persisted].
  unfold workspaceOf in Hp. rewrite Hp.
  repeat split; reflexivity.
Qed.

(** X14. The email of a completed import of a workspace that is found has
    the fixed subject and the provider name [Bitly], the name and the slug
    of the workspace, and at most five sample links. When the ordering
    returns only links it was given, every sample link is on one of the
    domains of the request. *)
Theorem completion_email_contents (r : Req.t) (w : World)
    (batch : list Link.t) (p : Project) (u : ProjectUser) :
  transformed r = Ok batch ->
  search_after (fetched r) = [] ->
  workspaceOf w r = Some p ->
  firstOwner w r = Some u ->
  exists e,
    outbox (fst (importLinksFromBitly r w)) = outbox w ++ [e] /\
    subject e = str "Your Bitly links have been imported!" /\
    provider e = str "Bitly" /\
    email e = default [] (user_email u) /\
    workspaceName e = project_name p /\
    workspaceSlug e = project_slug p /\
    (length (email_links e) <= 5)%nat /\
    ((forall ls x, In x (orderByCreatedAtDesc ls) -> In x ls) ->
     Forall (fun l => In (recent_domain l) (Req.domains r)) (email_links e)).
Proof.
  intros Ht Hc Hp Hu.
  assert (Ho : ownerEmailOf
                 (selectWorkspace w (Req.workspaceId r) (Req.domains r))
               = Ok (default [] (user_email u)))
    by (rewrite ownerEmailOf_firstOwner, Hp, Hu; reflexivity).
  rewrite (import_completes r w batch _ Ht Hc Ho). cbn [fst].
  eexists. split; [reflexivity|].
  unfold completionEmail, selectWorkspace. cbn [projects persisted].
  unfold workspaceOf in Hp. rewrite Hp.
  cbn [subject provider email workspaceName workspaceSlug email_links
       ws_name ws_slug ws_links].
  repeat (split; [reflexivity|]). split.
  - rewrite length_map, length_take. lia.
  - intros Hord. apply List.Forall_forall. intros rl Hin.
    apply in_map_iff in Hin as (l & <- & Hin).
    apply list_elem_of_In, elem_of_take in Hin as (i & Hin & _).
    apply list_elem_of_lookup_2, list_elem_of_In, Hord in Hin.
    apply List.filter_In in Hin as [_ Hin].
    apply andb_prop in Hin as [_ Hd]. cbn [recent recent_domain].
    now apply includes_In.
Qed.

Lemma filter_all_false {A} (f : A -> bool) (l : list A) :
  Forall (fun x => f x = false) l -> List.filter f l = [].
Proof.
  induction 1 as [|x l Hx _ IH]; [reflexivity|].
  cbn [List.filter]. now rewrite Hx.
Qed.

(** X15. Delivering the same page twice duplicates no link. After an
    invocation every link of its batch is in persistence, so a second
    invocation with the same request finds them all there, gives the bulk
    insert the empty list and leaves the links as they are. *)
Theorem import_again_inserts_nothing (r : Req.t) (w : World)
    (batch : list Link.t) :
  transformed r = Ok batch ->
  let w1 := fst (importLinksFromBitly r w) in
  let w2 := fst (importLinksFromBitly r w1) in
  Forall (fun l => present w1 (Link.shortLink l) = true) batch /\
  bulkInserts (trace w2) = bulkInserts (trace w1) ++ [[]] /\
  links w2 = links w1.
Proof.
  intros Ht w1 w2.
  assert (Hall : Forall (fun l => present w1 (Link.shortLink l) = true) batch).
  { apply List.Forall_forall. intros l Hl.
    destruct (import_links_trace r w batch Ht) as (Hlinks & _).
    unfold present, w1. rewrite Hlinks. cbn [persisted links].
    apply includes_In. rewrite map_app. apply in_or_app.
    destruct (present w (Link.shortLink l)) eqn:Hp.
    - left. now apply includes_In.
    - right. apply in_map. apply List.filter_In. split; [exact Hl|].
      now rewrite Hp. }
  assert (Hnone : List.filter
                    (fun l => negb (present w1 (Link.shortLink l))) batch
                  = []).
  { apply filter_all_false. eapply Forall_impl; [exact Hall|].
    cbn beta. intros l ->. reflexivity. }
  split; [exact Hall|]. split.
  - unfold w2. now rewrite (bulkInserts_import r w1 batch Ht), Hnone.
  - destruct (import_links_trace r w1 batch Ht) as (Hlinks & _).
    unfold w2. rewrite Hlinks. cbn [persisted links]. rewrite Hnone.
    apply app_nil_r.
Qed.

(** *** The id of a link *)

Lemma split_cons sep s : exists d rest, split sep s = d :: rest.
Proof.
  destruct s as [|c s]; cbn [split]; [eauto|].
  destruct (c =? sep)%N; [eauto|]. destruct (split sep s); eauto.
Qed.

Lemma split_join sep s :
  join sep (split sep s) = s /\ Forall (Forall (fun c => c <> sep)) (split sep s).
Proof.
  induction s as [|c s [IHj IHf]]; cbn [split].
  - split; [reflexivity | repeat constructor].
  - destruct (N.eqb_spec c sep) as [->|Hne].
    + destruct (split_cons sep s) as (d & rest & E). rewrite E in *.
      split.
      { change (join sep ([] :: d :: rest))
          with ([] ++ sep :: join sep (d :: rest)).
        now rewrite IHj. }
      constructor; [constructor | exact IHf].
    + destruct (split sep s) as [|h t] eqn:E.
      * destruct (split_cons sep s) as (d & rest & E'). congruence.
      * apply Forall_cons in IHf as [Hh Ht]. split.
        -- rewrite <- IHj. destruct t; reflexivity.
        -- constructor; [now constructor | exact Ht].
Qed.

Lemma take_2_parts {A} (a b : list A) d :
  take 2 a = take 2 b -> hd d a = hd d b /\ a !! 1%nat = b !! 1%nat.
Proof.
  destruct a as [|x [|y a]], b as [|x' [|y' b]]; cbn; intros E;
    inversion E; subst; split; reflexivity.
Qed.

Lemma split_nil sep s : split sep s = [[]] -> s = [].
Proof.
  intros E. destruct (split_join sep s) as [Hj _]. rewrite E in Hj.
  now rewrite <- Hj.
Qed.

(** X16. The id of a link is cut at its slashes. The domain of the primary
    link is the part before the first slash and its key the part between
    the first and the second, neither holding a slash; the key is
    [undefined] when the id has no slash; the short link is made of the
    two. Joined with slashes again, the parts are the id. What follows a
    second slash reaches no link: with any id that has the same first two
    parts, the callback returns the very same entries. *)
Theorem primary_link_of_id (r : Req.t) (l : Ext.t) (createdAt s : jsstring) :
  Ext.id l = SStr s ->
  passes_guards r l = true ->
  toISOString (Ext.created_at l) = Some createdAt ->
  exists primary entries rest,
    convertLink r l = Ok (primary :: entries) /\
    split c_slash s = Link.domain primary :: rest /\
    Link.key primary = head rest /\
    Link.shortLink primary
      = linkConstructorSimple (Link.domain primary) (head rest) /\
    Forall no_slash (Link.domain primary :: rest) /\
    join c_slash (Link.domain primary :: rest) = s /\
    (forall s',
        take 2 (split c_slash s') = take 2 (split c_slash s) ->
        convertLink r (with_id l (SStr s')) = Ok (primary :: entries)).
Proof.
  intros Hid Hg Hd.
  assert (Hne : s <> []).
  { unfold passes_guards in Hg. rewrite Hid in Hg. now destruct s. }
  assert (Hs : or_default (Ext.id l) [] = s)
    by (rewrite Hid; now destruct s).
  destruct (split_cons c_slash s) as (d & rest & E).
  destruct (split_join c_slash s) as [Hj Hf].
  assert (Hl : forall s',
    take 2 (split c_slash s') = take 2 (split c_slash s) ->
    convertLink r (with_id l (SStr s')) = convertLink r l).
  { intros s' Ht.
    destruct (take_2_parts _ _ [] Ht) as [Hhd Hkey].
    assert (Hne' : s' <> []).
    { intros ->. apply Hne, (split_nil c_slash).
      cbn [split take] in Ht.
      destruct (split c_slash s) as [|x [|y t]]; inversion Ht; reflexivity. }
    assert (Hs' : or_default (Ext.id (with_id l (SStr s'))) [] = s')
      by (cbn [with_id Ext.id]; now destruct s').
    assert (Hg' : passes_guards r (with_id l (SStr s')) = true).
    { unfold passes_guards in *. rewrite Hs', Hhd, <- Hs.
      cbn [with_id Ext.id Ext.long_url].
      replace (truthy (SStr s')) with (truthy (Ext.id l)); [exact Hg|].
      rewrite Hid. destruct s, s'; try contradiction; reflexivity. }
    unfold convertLink.
    rewrite (convert_guards_true r _ Hg'), (convert_guards_true r l Hg).
    rewrite Hs', Hs, Hhd, Hkey. reflexivity. }
  unfold convertLink in *. rewrite (convert_guards_true r l Hg) in *.
  rewrite Hd in *. cbv zeta in *. cbn [emitted] in *.
  rewrite Hs, E in *.
  eexists. eexists. exists rest. split; [reflexivity|].
  cbn [Link.domain Link.key Link.shortLink hd]. split; [reflexivity|].
  split; [now destruct rest|]. split; [now destruct rest|].
  split; [exact Hf|]. split; [exact Hj|]. exact Hl.
Qed.

End More.

(** *** The properties on the sample data *)

Lemma invalid_date_aborts_before_persistence_witness :
  Exists (@invalid_date (sampleRuntime sample_page_undated) sample_request)
    (page_links (@fetched (sampleRuntime sample_page_undated) sample_request))
  /\
  snd (@importLinksFromBitly (sampleRuntime sample_page_undated)
         sample_request sample_world) = Throw RangeError /\
  links (fst (@importLinksFromBitly (sampleRuntime sample_page_undated)
                sample_request sample_world)) = [].
Proof.
  assert (Hx : Exists
                 (@invalid_date (sampleRuntime sample_page_undated)
                    sample_request)
                 (page_links (@fetched (sampleRuntime sample_page_undated)
                                sample_request))).
  { apply Exists_cons_tl. apply Exists_cons_hd. split; reflexivity. }
  split; [exact Hx|].
  rewrite (proj2 (@invalid_date_aborts_before_persistence
                    (sampleRuntime sample_page_undated) sample_request
                    sample_world) Hx).
  split; reflexivity.
Defined.

Lemma skipped_page_inserts_nothing_witness :
  Forall (fun l => passes_guards sample_request l = false)
    (page_links (@fetched (sampleRuntime sample_page_foreign) sample_request))
  /\
  @transformed (sampleRuntime sample_page_foreign) sample_request = Ok [].
Proof.
  assert (Hs : Forall (fun l => passes_guards sample_request l = false)
                 (page_links (@fetched (sampleRuntime sample_page_foreign)
                                sample_request)))
    by (repeat constructor).
  split; [exact Hs|].
  exact (proj1 (@skipped_page_inserts_nothing
                  (sampleRuntime sample_page_foreign) sample_request
                  sample_world Hs)).
Defined.

Lemma transformed_links_belong_witness :
  @transformed (sampleRuntime (sample_page [])) sample_request
    = Ok sample_batch /\
  Forall (belongs_to sample_request) sample_batch.
Proof.
  split; [reflexivity|].
  exact (@transformed_links_belong (sampleRuntime (sample_page []))
           sample_request sample_batch eq_refl).
Defined.

Lemma import_call_order_witness :
  @transformed (sampleRuntime (sample_page (str "xyz"))) sample_request
    = Ok sample_batch /\
  exists m,
    trace (fst (@importLinksFromBitly (sampleRuntime (sample_page (str "xyz")))
                  sample_request sample_world))
    = [CFetch
         (str "https://api-ssl.bitly.com/v4/groups/group_1/bitlinks?size=100")
         (str "Bearer secret");
       CLinkFindMany (map Link.shortLink sample_batch);
       CBulkCreateLinks sample_batch;
       CSleep 500;
       CPublishJSON m].
Proof.
  split; [reflexivity|].
  destruct (proj1 (@import_call_order (sampleRuntime (sample_page (str "xyz")))
                     sample_request sample_world sample_batch eq_refl)
              ltac:(discriminate)) as [m Hm].
  exists m. exact Hm.
Defined.

Lemma import_throws_without_owner_witness :
  @transformed (sampleRuntime (sample_page [])) sample_request
    = Ok sample_batch /\
  firstOwner sample_world_ownerless sample_request = None /\
  snd (@importLinksFromBitly (sampleRuntime (sample_page []))
         sample_request sample_world_ownerless) = Throw TypeError /\
  redis (fst (@importLinksFromBitly (sampleRuntime (sample_page []))
                sample_request sample_world_ownerless))
    = redis sample_world_ownerless.
Proof.
  split; [reflexivity|]. split; [reflexivity|].
  destruct (@import_throws_without_owner (sampleRuntime (sample_page []))
              sample_request sample_world_ownerless sample_batch _
              eq_refl eq_refl eq_refl eq_refl)
    as (Hres & _ & Hredis & _).
  split; [exact Hres | exact Hredis].
Defined.

Lemma import_completes_without_workspace_witness :
  @transformed (sampleRuntime (sample_page [])) sample_request
    = Ok sample_batch /\
  workspaceOf sample_world_empty sample_request = None /\
  snd (@importLinksFromBitly (sampleRuntime (sample_page []))
         sample_request sample_world_empty) = Ok (RetCount 2).
Proof.
  split; [reflexivity|]. split; [reflexivity|].
  exact (proj1 (@import_completes_without_workspace
                  (sampleRuntime (sample_page [])) sample_request
                  sample_world_empty sample_batch eq_refl eq_refl eq_refl)).
Defined.

Lemma completion_email_contents_witness :
  @transformed (sampleRuntime (sample_page [])) sample_request
    = Ok sample_batch /\
  exists e,
    outbox (fst (@importLinksFromBitly (sampleRuntime (sample_page []))
                   sample_request sample_world)) = [e] /\
    workspaceName e = str "Acme" /\
    email e = str "o@acme.co".
Proof.
  split; [reflexivity|].
  destruct (@completion_email_contents (sampleRuntime (sample_page []))
              sample_request sample_world sample_batch _ _
              eq_refl eq_refl eq_refl eq_refl)
    as (e & Hout & _ & _ & Hto & Hname & _).
  exists e. split; [exact Hout|]. split; [exact Hname | exact Hto].
Defined.

Lemma import_again_inserts_nothing_witness :
  @transformed (sampleRuntime (sample_page [])) sample_request
    = Ok sample_batch /\
  length
    (links
       (fst (@importLinksFromBitly (sampleRuntime (sample_page []))
               sample_request
               (fst (@importLinksFromBitly (sampleRuntime (sample_page []))
                       sample_request sample_world))))) = 2%nat.
Proof.
  split; [reflexivity|].
  destruct (@import_again_inserts_nothing (sampleRuntime (sample_page []))
              sample_request sample_world sample_batch eq_refl)
    as (_ & _ & Hlinks).
  rewrite Hlinks. reflexivity.
Defined.

Lemma primary_link_of_id_witness :
  Ext.id sample_link = SStr (str "short.io/abc") /\
  passes_guards sample_request sample_link = true /\
  exists primary entries,
    @convertLink (sampleRuntime (sample_page [])) sample_request sample_link
      = Ok (primary :: entries) /\
    Link.key primary = Some (str "abc") /\
    @convertLink (sampleRuntime (sample_page [])) sample_request
      sample_link_long_id = Ok (primary :: entries).
Proof.
  split; [reflexivity|]. split; [reflexivity|].
  destruct (@primary_link_of_id (sampleRuntime (sample_page []))
              sample_request sample_link
              (str "2024-01-01T00:00:00.000Z") (str "short.io/abc")
              eq_refl eq_refl eq_refl)
    as (primary & entries & rest & Hc & Hsplit & Hkey & _ & _ & _ & Hsame).
  exists primary, entries. split; [exact Hc|]. split.
  - rewrite Hkey. vm_compute in Hsplit. now inversion Hsplit.
  - exact (Hsame (str "short.io/abc/def/ghi") eq_refl).
Defined.

End BitlyMore.

(** ** The schemas *)
Module ZodMore.
Import Zod ZodFacts.

(** *** Trimming *)

Lemma trim_start_fixed s :
  match s with [] => True | c :: _ => is_space c = false end ->
  trim_start s = s.
Proof. destruct s as [|c s]; [reflexivity|]. cbn. now intros ->. Qed.

Lemma trim_start_head s :
  match trim_start s with [] => True | c :: _ => is_space c = false end.
Proof.
  induction s as [|c s IH]; [exact I|]. cbn [trim_start].
  destruct (is_space c) eqn:Hc; [exact IH | exact Hc].
Qed.

Lemma trim_start_idem s : trim_start (trim_start s) = trim_start s.
Proof. apply trim_start_fixed, trim_start_head. Qed.

Lemma trim_start_snoc l c :
  is_space c = false -> exists l', trim_start (l ++ [c]) = l' ++ [c].
Proof.
  intros Hc. induction l as [|a l [l' IH]].
  - exists []. cbn. now rewrite Hc.
  - cbn [app trim_start]. destruct (is_space a).
    + now exists l'.
    + now exists (a :: l).
Qed.

Lemma trim_head s :
  match trim s with [] => True | c :: _ => is_space c = false end.
Proof.
  unfold trim. pose proof (trim_start_head s) as Hh.
  destruct (trim_start s) as [|c x]; [exact I|].
  cbn [rev]. destruct (trim_start_snoc (rev x) c Hh) as [l' ->].
  rewrite rev_app_distr. exact Hh.
Qed.

Lemma trim_idem s : trim (trim s) = trim s.
Proof.
  unfold trim at 1. rewrite (trim_start_fixed (trim s) (trim_head s)).
  unfold trim. rewrite rev_involutive, trim_start_idem. reflexivity.
Qed.

Lemma trim_spaces s : forallb is_space s = true -> trim s = [].
Proof.
  intros Hs. unfold trim.
  assert (E : trim_start s = []).
  { induction s as [|c s IH]; [reflexivity|]. cbn [forallb] in Hs.
    apply andb_prop in Hs as [Hc Hs]. cbn [trim_start]. rewrite Hc. auto. }
  now rewrite E.
Qed.

(** *** What the fields of a request parse to *)

Lemma customerId_parsed v v' :
  z_string [Trim; Min 1; Max 100] v = Some v' ->
  exists s, v = VStr s /\ v' = VStr (trim s) /\
            (1 <= length (trim s) <= 100)%nat.
Proof.
  rewrite customerId_schema. destruct v; try discriminate.
  destruct (Nat.ltb_spec (length (trim s)) 1); [discriminate|].
  destruct (Nat.ltb_spec 100 (length (trim s))); [discriminate|].
  intros E. inversion E. exists s. repeat split; lia.
Qed.

Lemma amount_parsed v v' :
  z_number [Int; Positive] v = Some v' -> v' = v /\ positive_integer v.
Proof.
  intros E. assert (Hs : is_Some (z_number [Int; Positive] v)) by eauto.
  apply amount_is_Some in Hs.
  destruct (amount_schema v) as [E'|E']; rewrite E' in E;
    [inversion E; subst; now split | discriminate].
Qed.

Lemma enum_parsed values v v' :
  z_enum values v = Some v' -> v' = v /\ one_of values v.
Proof.
  intros E. assert (Hs : is_Some (z_enum values v)) by eauto.
  apply enum_is_Some in Hs. rewrite (enum_schema _ _ Hs) in E.
  inversion E; subst; now split.
Qed.

Lemma eventName_parsed v v' :
  z_default (VStr (str "Purchase")) (z_optional (z_string [Max 50])) v
    = Some v' ->
  exists e, v' = VStr e /\ (length e <= 50)%nat.
Proof.
  destruct v; try discriminate.
  - cbn. intros E. inversion E. eexists. split; [reflexivity|]. cbn. lia.
  - cbn [z_default z_optional z_string string_checks].
    destruct (Nat.ltb_spec 50 (length s)); [discriminate|].
    intros E. inversion E. eauto.
Qed.

Lemma invoiceId_parsed v v' :
  z_default VNull (z_nullish (z_string [])) v = Some v' ->
  nullable is_string v'.
Proof.
  destruct v; try discriminate; cbn; intros E; inversion E;
    [now left | now left | right; now eexists].
Qed.

Lemma currency_parsed v v' :
  z_default (VStr (str "usd")) (z_string []) v = Some v' -> is_string v'.
Proof.
  destruct v; try discriminate; cbn; intros E; inversion E; now eexists.
Qed.

Lemma filter_proto_idem (m : list (jsstring * value)) :
  let f := fun kv : jsstring * value =>
             negb (bool_decide (fst kv = str "__proto__")) in
  List.filter f (List.filter f m) = List.filter f m.
Proof.
  intros f. induction m as [|kv m IH]; [reflexivity|].
  cbn [List.filter]. destruct (f kv) eqn:Hf; [|exact IH].
  cbn [List.filter]. now rewrite Hf, IH.
Qed.

Lemma metadata_parsed v v' :
  z_default VNull (z_nullish z_record_unknown) v = Some v' ->
  (v' = VNull \/ is_object v') /\
  z_default VNull (z_nullish z_record_unknown) v' = Some v'.
Proof.
  destruct v; try discriminate;
    cbn [z_default z_nullish z_optional z_nullable z_record_unknown];
    intros E; inversion E; subst.
  - split; [now left | reflexivity].
  - split; [now left | reflexivity].
  - split; [right; now eexists|].
    cbn [z_default z_nullish z_optional z_nullable z_record_unknown].
    f_equal. f_equal. apply filter_proto_idem.
Qed.

Lemma parse_shape_cons k s sh fields out :
  parse_shape ((k, s) :: sh) fields = Some out ->
  exists v out',
    s (get fields k) = Some v /\
    parse_shape sh fields = Some out' /\
    out = match v with
          | VUndefined => if has_key k fields then (k, v) :: out' else out'
          | _ => (k, v) :: out'
          end.
Proof.
  cbn [parse_shape]. destruct (s (get fields k)) as [v|]; [|discriminate].
  destruct (parse_shape sh fields) as [out'|]; [|discriminate].
  intros E. inversion E. eauto.
Qed.

(** Two inputs with the same values at the keys of a shape parse alike,
    when no schema of the shape returns [undefined]. *)
Lemma parse_shape_ext sh f1 f2 :
  Forall (fun ks => get f1 (fst ks) = get f2 (fst ks) /\
                    forall v, snd ks v <> Some VUndefined) sh ->
  parse_shape sh f1 = parse_shape sh f2.
Proof.
  induction 1 as [|[k s] sh [Hk Hs] _ IH]; [reflexivity|].
  cbn [parse_shape fst snd] in *. rewrite Hk, IH.
  destruct (s (get f2 k)) as [v|] eqn:E; [|reflexivity].
  destruct (parse_shape sh f2); [|reflexivity].
  destruct v; try reflexivity. now apply Hs in E.
Qed.

(** What [trackSaleRequestSchema] returns. *)
Lemma trackSale_parsed v out :
  trackSaleRequestSchema v = Some out ->
  exists s n p e i c m,
    field v (str "customerId") = VStr s /\
    field v (str "amount") = VNum n /\
    field v (str "paymentProcessor") = VStr p /\
    (1 <= length (trim s) <= 100)%nat /\
    positive_integer (VNum n) /\
    In p [str "stripe"; str "shopify"; str "paddle"] /\
    (length e <= 50)%nat /\
    nullable is_string i /\
    (m = VNull \/ is_object m) /\
    z_default VNull (z_nullish z_record_unknown) m = Some m /\
    out = VObj [ (str "customerId", VStr (trim s));
                 (str "amount", VNum n);
                 (str "paymentProcessor", VStr p);
                 (str "eventName", VStr e);
                 (str "invoiceId", i);
                 (str "currency", VStr c);
                 (str "metadata", m) ].
Proof.
  destruct v; try discriminate. unfold trackSaleRequestSchema, z_object.
  destruct (parse_shape trackSaleRequestShape fields) as [o|] eqn:E;
    [|discriminate].
  intros Eo. inversion Eo; subst out. clear Eo.
  unfold trackSaleRequestShape in E.
  apply parse_shape_cons in E as (v1 & o1 & E1 & E & Eo1).
  apply parse_shape_cons in E as (v2 & o2 & E2 & E & Eo2).
  apply parse_shape_cons in E as (v3 & o3 & E3 & E & Eo3).
  apply parse_shape_cons in E as (v4 & o4 & E4 & E & Eo4).
  apply parse_shape_cons in E as (v5 & o5 & E5 & E & Eo5).
  apply parse_shape_cons in E as (v6 & o6 & E6 & E & Eo6).
  apply parse_shape_cons in E as (v7 & o7 & E7 & E & Eo7).
  cbn [parse_shape] in E. inversion E; subst o7. clear E.
  apply customerId_parsed in E1 as (s & Es & -> & Hlen).
  apply amount_parsed in E2 as (-> & Hamt).
  apply enum_parsed in E3 as (-> & (p & Ep & Hp)).
  apply eventName_parsed in E4 as (e & -> & He).
  apply invoiceId_parsed in E5.
  apply currency_parsed in E6 as (c & ->).
  apply metadata_parsed in E7 as (Hm & Hm').
  pose proof Hamt as (n & k & En & _).
  cbn [field]. rewrite En, Ep in *.
  exists s, n, p, e, v5, c, v7.
  repeat (split; [assumption || reflexivity|]).
  assert (E5' : o4 = (str "invoiceId", v5) :: o5)
    by (destruct E5 as [->|(i & ->)]; exact Eo5).
  assert (E7' : o6 = [(str "metadata", v7)])
    by (destruct Hm as [->|(m & ->)]; exact Eo7).
  cbv iota in Eo1, Eo2, Eo3, Eo4, Eo6.
  rewrite Eo1, Eo2, Eo3, Eo4, E5', Eo6, E7'. reflexivity.
Qed.

Lemma trackSale_never_undefined :
  Forall (fun ks : jsstring * Schema => forall v, snd ks v <> Some VUndefined)
    trackSaleRequestShape.
Proof.
  unfold trackSaleRequestShape.
  repeat (apply Forall_cons; split); [| | | | | | |constructor];
    cbn [snd]; intros v E.
  - apply customerId_parsed in E as (s & _ & E & _). discriminate.
  - apply amount_parsed in E as (<- & (n & k & E & _)). discriminate.
  - apply enum_parsed in E as (<- & (p & E & _)). discriminate.
  - apply eventName_parsed in E as (e & E & _). discriminate.
  - apply invoiceId_parsed in E as [E|(i & E)]; discriminate.
  - apply currency_parsed in E as (c & E). discriminate.
  - apply metadata_parsed in E as ([E|(m & E)] & _); discriminate.
Qed.

(** X17. What the track-sale request schema returns has the seven keys of
    the schema and no other, in the order of the schema, with the trimmed
    [customerId], the given [amount] and [paymentProcessor], and a string
    for [eventName] and for [currency]: keys of the input that the schema
    does not name are dropped, and two inputs that agree on the seven keys
    parse to the same result. *)
Theorem trackSale_output_shape :
  (forall v out,
      trackSaleRequestSchema v = Some out ->
      exists s n p e i c m,
        field v (str "customerId") = VStr s /\
        field v (str "amount") = VNum n /\
        field v (str "paymentProcessor") = VStr p /\
        out = VObj [ (str "customerId", VStr (trim s));
                     (str "amount", VNum n);
                     (str "paymentProcessor", VStr p);
                     (str "eventName", VStr e);
                     (str "invoiceId", i);
                     (str "currency", VStr c);
                     (str "metadata", m) ]) /\
  (forall f1 f2,
      Forall (fun k => get f1 k = get f2 k) trackSaleKeys ->
      trackSaleRequestSchema (VObj f1) = trackSaleRequestSchema (VObj f2)).
Proof.
  split.
  - intros v out Hp. apply trackSale_parsed in Hp
      as (s & n & p & e & i & c & m & Hs & Hn & Hp & _ & _ & _ & _ & _ & _
          & _ & ->).
    exists s, n, p, e, i, c, m. auto.
  - intros f1 f2 Hk. unfold trackSaleRequestSchema, z_object.
    f_equal. apply parse_shape_ext.
    pose proof trackSale_never_undefined as Hu.
    unfold trackSaleRequestShape, trackSaleKeys in *.
    repeat (apply Forall_cons in Hk as [? Hk]).
    repeat (apply Forall_cons in Hu as [? Hu]).
    repeat (apply Forall_cons; split; [split; assumption|]). constructor.
Qed.

Lemma positive_integer_number n :
  positive_integer (VNum n) -> z_number [] (VNum n) = Some (VNum n).
Proof.
  intros (n' & k & E & Hk & _). inversion E; subst n'.
  destruct n; try contradiction; reflexivity.
Qed.

Lemma nullable_string_schema i :
  nullable is_string i ->
  i <> VUndefined /\
  z_nullable (z_string []) i = Some i /\
  z_default VNull (z_nullish (z_string [])) i = Some i.
Proof. intros [->|(x & ->)]; repeat split; discriminate. Qed.

Lemma nullable_object_schema m :
  m = VNull \/ is_object m ->
  m <> VUndefined /\ is_Some (z_nullable z_record_unknown m).
Proof.
  intros [->|(x & ->)]; (split; [discriminate | eexists; reflexivity]).
Qed.

(** X18. Parsing is idempotent: what the track-sale request schema returns
    is accepted by the schema and parses to itself. *)
Theorem trackSale_parse_idempotent (v out : value) :
  trackSaleRequestSchema v = Some out ->
  trackSaleRequestSchema out = Some out.
Proof.
  intros Hp. apply trackSale_parsed in Hp
    as (s & n & p & e & i & c & m & _ & _ & _ & Hlen & Hamt & Hp & He & Hi
        & Hm & Hm' & ->).
  unfold trackSaleRequestSchema, z_object, trackSaleRequestShape.
  cbn [parse_shape].
  set (L := [ (str "customerId", VStr (trim s)); (str "amount", VNum n);
              (str "paymentProcessor", VStr p); (str "eventName", VStr e);
              (str "invoiceId", i); (str "currency", VStr c);
              (str "metadata", m) ]).
  change (get L (str "customerId")) with (VStr (trim s)).
  change (get L (str "amount")) with (VNum n).
  change (get L (str "paymentProcessor")) with (VStr p).
  change (get L (str "eventName")) with (VStr e).
  change (get L (str "invoiceId")) with i.
  change (get L (str "currency")) with (VStr c).
  change (get L (str "metadata")) with m.
  rewrite customerId_schema, trim_idem.
  destruct (Nat.ltb_spec (length (trim s)) 1); [lia|].
  destruct (Nat.ltb_spec 100 (length (trim s))); [lia|].
  assert (Ha : z_number [Int; Positive] (VNum n) = Some (VNum n)).
  { destruct (amount_schema (VNum n)) as [E|E]; [exact E|].
    apply amount_is_Some in Hamt as [x Hx]. congruence. }
  rewrite Ha.
  rewrite (enum_schema _ (VStr p)) by (exists p; auto).
  cbn [z_default z_optional z_string string_checks option_map].
  destruct (Nat.ltb_spec 50 (length e)); [lia|].
  destruct (nullable_string_schema i Hi) as (Hiu & _ & ->).
  rewrite Hm'.
  assert (Hmu : m <> VUndefined)
    by (destruct Hm as [->|(x & ->)]; discriminate).
  destruct i; try contradiction; destruct m; try contradiction; reflexivity.
Qed.

(** X19. A [customerId] of white space only, the empty string included, is
    rejected, whatever the other fields are. *)
Theorem trackSale_rejects_blank_customerId
    (fields : list (jsstring * value)) (s : jsstring) :
  get fields (str "customerId") = VStr s ->
  forallb is_space s = true ->
  trackSaleRequestSchema (VObj fields) = None.
Proof.
  intros Hc Hs.
  destruct (trackSaleRequestSchema (VObj fields)) as [out|] eqn:E;
    [|reflexivity].
  assert (Hsome : is_Some (trackSaleRequestSchema (VObj fields))) by eauto.
  apply trackSale_fields in Hsome as [((s' & Es & Hlen) & _) _].
  rewrite Hc in Es. inversion Es; subst s'.
  rewrite (trim_spaces s Hs) in Hlen. cbn in Hlen. lia.
Qed.

Lemma nullable_record_fixed m :
  m = VNull \/ is_object m ->
  z_default VNull (z_nullish z_record_unknown) m = Some m ->
  z_nullable z_record_unknown m = Some m.
Proof. intros [->|(x & ->)] E; [reflexivity | exact E]. Qed.

(** X20. What the request schema returns fits the response schema: a parsed
    request is accepted as the [sale] object of [trackSaleResponseSchema],
    which keeps its amount, currency, payment processor, invoice id and
    metadata as they are and drops the rest; with the parsed event name and
    any customer the response schema accepts, the response is accepted,
    and what the response schema returns holds that event name and that
    sale. *)
Theorem parsed_request_fits_response (v out customer : value) :
  trackSaleRequestSchema v = Some out ->
  is_Some (z_object trackSaleResponseCustomer customer) ->
  exists sale,
    z_object trackSaleResponseSale out = Some (VObj sale) /\
    map fst sale = [str "amount"; str "currency"; str "paymentProcessor";
                    str "invoiceId"; str "metadata"] /\
    get sale (str "amount") = field out (str "amount") /\
    get sale (str "currency") = field out (str "currency") /\
    get sale (str "paymentProcessor") = field out (str "paymentProcessor") /\
    get sale (str "invoiceId") = field out (str "invoiceId") /\
    get sale (str "metadata") = field out (str "metadata") /\
    exists customer',
      z_object trackSaleResponseCustomer customer = Some customer' /\
      trackSaleResponseSchema
        (VObj [ (str "eventName", field out (str "eventName"));
                (str "customer", customer);
                (str "sale", out) ])
      = Some (VObj [ (str "eventName", field out (str "eventName"));
                     (str "customer", customer');
                     (str "sale", VObj sale) ]).
Proof.
  intros Hp [customer' Hcust]. apply trackSale_parsed in Hp
    as (s & n & p & e & i & c & m & _ & _ & _ & _ & Hamt & _ & _ & Hi & Hm
        & Hm' & ->).
  destruct (nullable_string_schema i Hi) as (Hiu & Hin & _).
  pose proof (nullable_record_fixed m Hm Hm') as Hmn.
  assert (Hmu : m <> VUndefined)
    by (destruct Hm as [->|(x & ->)]; discriminate).
  set (L := [ (str "customerId", VStr (trim s)); (str "amount", VNum n);
              (str "paymentProcessor", VStr p); (str "eventName", VStr e);
              (str "invoiceId", i); (str "currency", VStr c);
              (str "metadata", m) ]).
  assert (Hsale : z_object trackSaleResponseSale (VObj L)
                  = Some (VObj [ (str "amount", VNum n);
                                 (str "currency", VStr c);
                                 (str "paymentProcessor", VStr p);
                                 (str "invoiceId", i);
                                 (str "metadata", m) ])).
  { unfold z_object, trackSaleResponseSale. cbn [parse_shape].
    change (get L (str "amount")) with (VNum n).
    change (get L (str "currency")) with (VStr c).
    change (get L (str "paymentProcessor")) with (VStr p).
    change (get L (str "invoiceId")) with i.
    change (get L (str "metadata")) with m.
    rewrite (positive_integer_number n Hamt), Hin, Hmn.
    cbn [z_string string_checks option_map].
    destruct i; try contradiction; destruct m; try contradiction;
      reflexivity. }
  eexists. split; [exact Hsale|].
  repeat (split; [reflexivity|]).
  exists customer'. split; [exact Hcust|].
  assert (Hcu : customer' <> VUndefined).
  { unfold z_object in Hcust. destruct customer; try discriminate.
    destruct (parse_shape _ _); inversion Hcust. discriminate. }
  unfold trackSaleResponseSchema, z_object at 1. cbn [parse_shape].
  change (get _ (str "eventName")) with (VStr e).
  change (get _ (str "customer")) with customer.
  change (get _ (str "sale")) with (VObj L).
  rewrite Hcust, Hsale. cbn [z_string string_checks option_map field].
  change (get L (str "eventName")) with (VStr e).
  destruct customer'; try contradiction; reflexivity.
Qed.

Lemma nullable_string_is_Some v :
  is_Some (z_nullable (z_string []) v) <-> nullable is_string v.
Proof.
  unfold nullable, is_string. split.
  - destruct v; try (intros [x Hx]; discriminate); intros _;
      [now left | right; now eexists].
  - intros [->|(x & ->)]; eexists; reflexivity.
Qed.

Lemma nullable_number_is_Some v :
  is_Some (z_nullable (z_number []) v) <-> nullable is_number v.
Proof.
  unfold nullable. split.
  - destruct v; try (intros [x Hx]; discriminate).
    + intros _. now left.
    + intros Hn. right. now apply number_is_Some.
  - intros [->|Hn]; [eexists; reflexivity|].
    apply number_is_Some in Hn. destruct Hn as [x Hx].
    destruct v; try discriminate. eexists; exact Hx.
Qed.

Lemma nullable_record_is_Some v :
  is_Some (z_nullable z_record_unknown v) <-> nullable is_object v.
Proof.
  unfold nullable, is_object. split.
  - destruct v; try (intros [x Hx]; discriminate); intros _;
      [now left | right; now eexists].
  - intros [->|(x & ->)]; eexists; reflexivity.
Qed.

Lemma literal_is_Some s v : is_Some (z_literal s v) <-> v = VStr s.
Proof.
  split.
  - destruct v; try (intros [x Hx]; discriminate). cbn [z_literal].
    destruct (bool_decide_reflect (s0 = s)) as [->|];
      [reflexivity | intros [x Hx]; discriminate].
  - intros ->. cbn [z_literal]. rewrite bool_decide_eq_true_2 by reflexivity.
    eexists; reflexivity.
Qed.

(** X21. [trackSaleResponseSchema] accepts exactly the objects with a
    string [eventName], a [customer] object with a string [id] and a [name],
    [email] and [avatar] that are strings or [null], and a [sale] object
    with a number [amount], string [currency] and [paymentProcessor], an
    [invoiceId] that is a string or [null] and a [metadata] that is an
    object or [null]. No key has a default: a nullable key that is missing
    is rejected. *)
Theorem trackSaleResponse_accepts_iff (v : value) :
  is_Some (trackSaleResponseSchema v) <->
  exists fields customer sale,
    v = VObj fields /\
    is_string (get fields (str "eventName")) /\
    get fields (str "customer") = VObj customer /\
    is_string (get customer (str "id")) /\
    Forall (fun k => nullable is_string (get customer k))
      [str "name"; str "email"; str "avatar"] /\
    get fields (str "sale") = VObj sale /\
    is_number (get sale (str "amount")) /\
    is_string (get sale (str "currency")) /\
    is_string (get sale (str "paymentProcessor")) /\
    nullable is_string (get sale (str "invoiceId")) /\
    nullable is_object (get sale (str "metadata")).
Proof.
  unfold trackSaleResponseSchema. rewrite z_object_is_Some.
  split.
  - intros (fields & -> & HF).
    apply Forall_cons in HF as [He HF].
    apply Forall_cons in HF as [Hc HF].
    apply Forall_cons in HF as [Hs _]. cbn [fst snd] in *.
    apply z_object_is_Some in Hc as (customer & Ec & Hc).
    apply z_object_is_Some in Hs as (sale & Es & Hs).
    unfold trackSaleResponseCustomer in Hc.
    unfold trackSaleResponseSale in Hs.
    repeat (apply Forall_cons in Hc as [? Hc]).
    repeat (apply Forall_cons in Hs as [? Hs]). cbn [fst snd] in *.
    exists fields, customer, sale.
    repeat match goal with
           | Hx : is_Some (z_string [] _) |- _ => apply string_is_Some in Hx
           | Hx : is_Some (z_number [] _) |- _ => apply number_is_Some in Hx
           | Hx : is_Some (z_nullable (z_string []) _) |- _ =>
               apply nullable_string_is_Some in Hx
           | Hx : is_Some (z_nullable z_record_unknown _) |- _ =>
               apply nullable_record_is_Some in Hx
           end.
    repeat split; try assumption.
    repeat (apply Forall_cons; split; [assumption|]). constructor.
  - intros (fields & customer & sale & -> & He & Ec & Hid & Hn & Es & Ha & Hc
            & Hp & Hi & Hm).
    repeat (apply Forall_cons in Hn as [? Hn]).
    exists fields. split; [reflexivity|].
    repeat (apply Forall_cons; split); [| | |constructor]; cbn [fst snd].
    + now apply string_is_Some.
    + rewrite Ec. apply z_object_is_Some. exists customer.
      split; [reflexivity|]. unfold trackSaleResponseCustomer.
      repeat (apply Forall_cons; split); [| | | |constructor]; cbn [fst snd];
        (now apply string_is_Some) || (now apply nullable_string_is_Some).
    + rewrite Es. apply z_object_is_Some. exists sale.
      split; [reflexivity|]. unfold trackSaleResponseSale.
      repeat (apply Forall_cons; split); [| | | | |constructor];
        cbn [fst snd].
      * now apply number_is_Some.
      * now apply string_is_Some.
      * now apply string_is_Some.
      * now apply nullable_string_is_Some.
      * now apply nullable_record_is_Some.
Qed.

(** X22. [saleEventSchemaTBEndpoint] accepts exactly the objects whose
    [event] is [sale], whose nine text columns are strings, whose
    [saleAmount] is a number, whose ten nullable text columns are strings
    or [null] and whose [qr] is a number or [null]. Every column has to be
    there: none is optional and none has a default. *)
Theorem endpoint_row_accepts_iff (v : value) :
  is_Some (saleEventSchemaTBEndpoint v) <->
  exists fields,
    v = VObj fields /\
    get fields (str "event") = VStr (str "sale") /\
    Forall (fun k => is_string (get fields k)) endpointStrings /\
    is_number (get fields (str "saleAmount")) /\
    Forall (fun k => nullable is_string (get fields k))
      endpointNullableStrings /\
    nullable is_number (get fields (str "qr")).
Proof.
  unfold saleEventSchemaTBEndpoint, endpointStrings, endpointNullableStrings.
  rewrite z_object_is_Some.
  split.
  - intros (fields & -> & HF).
    repeat (apply Forall_cons in HF as [? HF]). cbn [fst snd] in *.
    exists fields.
    repeat match goal with
           | Hx : is_Some (z_string [] _) |- _ => apply string_is_Some in Hx
           | Hx : is_Some (z_number [] _) |- _ => apply number_is_Some in Hx
           | Hx : is_Some (z_literal _ _) |- _ => apply literal_is_Some in Hx
           | Hx : is_Some (z_nullable (z_string []) _) |- _ =>
               apply nullable_string_is_Some in Hx
           | Hx : is_Some (z_nullable (z_number []) _) |- _ =>
               apply nullable_number_is_Some in Hx
           end.
    repeat split; try assumption;
      repeat (apply Forall_cons; split; [assumption|]); constructor.
  - intros (fields & -> & He & Hs & Ha & Hn & Hq).
    repeat (apply Forall_cons in Hs as [? Hs]).
    repeat (apply Forall_cons in Hn as [? Hn]).
    exists fields. split; [reflexivity|].
    repeat (apply Forall_cons; split); try constructor; cbn [fst snd];
      first [ now apply literal_is_Some
            | now apply string_is_Some
            | now apply number_is_Some
            | now apply nullable_string_is_Some
            | now apply nullable_number_is_Some ].
Qed.

(** *** Reading a parsed object *)

Lemma parse_shape_get sh fields out k s :
  parse_shape sh fields = Some out ->
  lookup_key k sh = Some s ->
  exists v, s (get fields k) = Some v /\ (v <> VUndefined -> get out k = v).
Proof.
  revert out. induction sh as [|[k0 s0] sh IH]; intros out; [discriminate|].
  cbn [parse_shape lookup_key].
  destruct (s0 (get fields k0)) as [v0|] eqn:E0; [|discriminate].
  destruct (parse_shape sh fields) as [out'|]; [|discriminate].
  intros Eo Hk. inversion Eo as [Ho]. clear Eo.
  destruct (bool_decide_reflect (k0 = k)) as [->|Hne].
  - inversion Hk; subst s0. exists v0. split; [exact E0|]. intros Hv.
    destruct v0; try contradiction; unfold get; cbn [lookup_key];
      now rewrite bool_decide_eq_true_2.
  - destruct (IH out' eq_refl Hk) as (v & Ev & Hget).
    exists v. split; [exact Ev|]. intros Hv. rewrite <- (Hget Hv).
    assert (Hskip : get ((k0, v0) :: out') k = get out' k).
    { unfold get. cbn [lookup_key]. now rewrite bool_decide_eq_false_2. }
    destruct v0; try exact Hskip.
    destruct (has_key k0 fields); [exact Hskip | reflexivity].
Qed.

Lemma lookup_key_app_l {A} k (a b : list (jsstring * A)) x :
  lookup_key k a = Some x -> lookup_key k (a ++ b) = Some x.
Proof.
  induction a as [|[k0 x0] a IH]; [discriminate|]. cbn [app lookup_key].
  destruct (bool_decide (k0 = k)); auto.
Qed.

Lemma lookup_key_merge_own (a b : Shape) k s :
  lookup_key k a = Some s ->
  lookup_key k (merge a b) = Some (default s (lookup_key k b)).
Proof.
  intros Hk. unfold merge. apply lookup_key_app_l.
  induction a as [|[k0 s0] a IH]; [discriminate|].
  cbn [map lookup_key fst snd] in *.
  destruct (bool_decide_reflect (k0 = k)) as [->|Hne].
  - now inversion Hk.
  - auto.
Qed.

Section Timestamp.
Variables linkEventSchema clickEventSchema customerSchema : Schema.
Variable commonDeprecatedEventFields : Shape.
Variable coerceString : value -> jsstring.

Local Abbreviation schema :=
  (saleEventResponseSchema linkEventSchema clickEventSchema customerSchema
     commonDeprecatedEventFields coerceString).

Local Abbreviation kept k := (has_key k commonDeprecatedEventFields = false).

(** X23. The [timestamp] of a sale event is coerced, not checked: the
    response schema accepts an event whatever its [timestamp] is, missing
    included, and the parsed event has the string [String(timestamp)] in
    its place. (The deprecated fields imported from [./deprecated] are
    taken not to redeclare [timestamp] or the four keys of C1.) *)
Theorem response_timestamp_coerced
    (fields : list (jsstring * value)) (out t : value) :
  kept (str "timestamp") ->
  kept (str "sale") -> kept (str "saleAmount") ->
  kept (str "invoice_id") -> kept (str "payment_processor") ->
  schema (VObj fields) = Some out ->
  field out (str "timestamp")
    = VStr (coerceString (get fields (str "timestamp"))) /\
  is_Some (schema (VObj (set_field (str "timestamp") t fields))).
Proof.
  intros Ht Hs Ha Hi Hp Hout. split.
  - unfold saleEventResponseSchema, z_object in Hout.
    destruct (parse_shape _ fields) as [o|] eqn:E; [|discriminate].
    inversion Hout; subst out. cbn [field].
    assert (Hk : lookup_key (str "timestamp")
                   (saleEventResponseShape linkEventSchema clickEventSchema
                      customerSchema commonDeprecatedEventFields coerceString)
                 = Some (z_coerce_string coerceString)).
    { unfold saleEventResponseShape.
      rewrite (lookup_key_merge_own _ _ (str "timestamp")
                 (z_coerce_string coerceString)) by reflexivity.
      now rewrite (has_key_false _ _ Ht). }
    destruct (parse_shape_get _ _ _ _ _ E Hk) as (v & Ev & Hget).
    unfold z_coerce_string in Ev. cbn in Ev. inversion Ev; subst v.
    apply Hget. discriminate.
  - assert (Hacc : is_Some (schema (VObj fields))) by eauto.
    apply (response_is_Some _ _ _ _ _ fields Hs Ha Hi Hp) in Hacc
      as ((H1 & H2 & H3 & H4 & H5 & H6 & H7) & (H8 & H9 & H10 & H11) & Hrest).
    apply (response_is_Some _ _ _ _ _ _ Hs Ha Hi Hp).
    assert (Hget : forall k,
      k <> str "timestamp" ->
      get (set_field (str "timestamp") t fields) k = get fields k).
    { intros k Hk. apply get_set_field_ne. congruence. }
    split; [|split].
    + rewrite (Hget (str "event")), (Hget (str "eventId")),
        (Hget (str "eventName")), (Hget (str "link")), (Hget (str "click")),
        (Hget (str "customer")) by (vm_compute; discriminate).
      split; [exact H1|]. split.
      { rewrite (has_key_false _ _ Ht). eexists; reflexivity. }
      split; [exact H3|]. split; [exact H4|]. split; [exact H5|].
      split; [exact H6 | exact H7].
    + rewrite (Hget (str "sale")), (Hget (str "saleAmount")),
        (Hget (str "invoice_id")), (Hget (str "payment_processor"))
        by (vm_compute; discriminate).
      split; [exact H8|]. split; [exact H9|]. split; [exact H10 | exact H11].
    + apply List.Forall_forall. intros [k s] Hin.
      pose proof (proj1 (List.Forall_forall _ _) Hrest (k, s) Hin) as Hk.
      apply List.filter_In in Hin as [_ Hnot]. cbn [fst snd] in *.
      rewrite Hget; [exact Hk|].
      intros ->. apply negb_true_iff in Hnot. vm_compute in Hnot.
      discriminate.
Qed.

End Timestamp.

(** *** The properties on the sample data *)

Lemma trackSale_parse_idempotent_witness :
  is_Some (trackSaleRequestSchema sample_request) /\
  forall out,
    trackSaleRequestSchema sample_request = Some out ->
    field out (str "customerId") = VStr (str "cus_1") /\
    trackSaleRequestSchema out = Some out.
Proof.
  split; [eexists; vm_compute; reflexivity|].
  intros out Hout. split.
  - vm_compute in Hout. inversion Hout. reflexivity.
  - exact (trackSale_parse_idempotent sample_request out Hout).
Defined.

Lemma trackSale_rejects_blank_customerId_witness :
  forallb is_space (str "   ") = true /\
  trackSaleRequestSchema
    (VObj [ (str "customerId", VStr (str "   "));
            (str "amount", VNum (num 1000));
            (str "paymentProcessor", VStr (str "stripe")) ]) = None.
Proof.
  split; [reflexivity|].
  exact (trackSale_rejects_blank_customerId
           [ (str "customerId", VStr (str "   "));
             (str "amount", VNum (num 1000));
             (str "paymentProcessor", VStr (str "stripe")) ]
           (str "   ") eq_refl eq_refl).
Defined.

Lemma parsed_request_fits_response_witness :
  is_Some (z_object trackSaleResponseCustomer sample_customer) /\
  forall out,
    trackSaleRequestSchema sample_request = Some out ->
    exists sale,
      z_object trackSaleResponseSale out = Some (VObj sale) /\
      get sale (str "metadata") = field out (str "metadata") /\
      is_Some (trackSaleResponseSchema
                 (VObj [ (str "eventName", field out (str "eventName"));
                         (str "customer", sample_customer);
                         (str "sale", out) ])).
Proof.
  assert (Hc : is_Some (z_object trackSaleResponseCustomer sample_customer))
    by (eexists; vm_compute; reflexivity).
  split; [exact Hc|]. intros out Hout.
  destruct (parsed_request_fits_response sample_request out
              sample_customer Hout Hc)
    as (sale & Hsale & _ & _ & _ & _ & _ & Hmeta & customer' & _ & Hresp).
  exists sale. split; [exact Hsale|]. split; [exact Hmeta|].
  rewrite Hresp. eexists; reflexivity.
Defined.

Lemma response_timestamp_coerced_witness :
  has_key (str "timestamp") (@nil (jsstring * Schema)) = false /\
  saleEventResponseSchema z_unknown z_unknown z_unknown []
    sample_coerceString sample_response = Some sample_response /\
  is_Some (saleEventResponseSchema z_unknown z_unknown z_unknown []
             sample_coerceString
             (match sample_response with
              | VObj fields =>
                  VObj (set_field (str "timestamp") VUndefined fields)
              | v => v
              end)).
Proof.
  split; [reflexivity|].
  assert (Hp : saleEventResponseSchema z_unknown z_unknown z_unknown []
                 sample_coerceString sample_response = Some sample_response)
    by (vm_compute; reflexivity).
  split; [exact Hp|].
  exact (proj2 (response_timestamp_coerced z_unknown z_unknown z_unknown []
                  sample_coerceString _ _ VUndefined
                  eq_refl eq_refl eq_refl eq_refl eq_refl Hp)).
Defined.

End ZodMore.
